(** * WebFileTransfer: the session relay of [server.js]

    A shallow embedding of the session store, the request handlers and the
    cleanup code of [src/server.js], followed by the properties of the
    session life cycle and of the image relay; and of the admin side: the
    Basic-auth hook and the log route of [server.js], with the pagination
    controls of [public/admin.js] and the file name shown by
    [public/receiver.js].

    Conventions of the model.
    - Time stamps ([Date.now()]) are integers of milliseconds, in [Z].  Every
      reading of the clock is an argument of the handler that reads it; a
      handler that reads the clock twice (once itself, once inside
      [calculateExpiresAt]) takes two readings, [now] and [nowExp].
    - [sessions] and [session.imagePaths] are JavaScript objects used as
      dictionaries: finite maps with string keys, looked up on their own
      properties.  [Object.keys] and [Object.values] enumerate them in the
      order of the finite map; nothing below depends on that order.
    - A property read on a plain object also finds the names inherited from
      [Object.prototype] ([objectPrototypeNames]); on such a name the routes
      work on a built-in of the runtime, not on a session.  The handlers
      describe the routes for the requests whose identifiers are none of
      these names ([wellNamed]), as is every identifier that the server
      hands out; the properties of absent sessions assume it.
    - The upload directory is a finite map from path to file content; the only
      failure of the file system that is modelled is ENOENT.
    - A request handler runs as one atomic step.  The work that the code
      leaves behind without awaiting it (the unlink loop of [cleanupSession],
      the [process.nextTick] callback of the image route) is queued in
      [deferred] and runs in later steps, in any interleaving with requests.
      Where a route awaits between the lookup of the session and its use,
      the atomic step is the run in which the session is not removed in
      between; the upload route, which awaits the whole file part, is also
      given in its separate steps ([uploadBegin], [uploadWrite],
      [uploadFinish]), of which [uploadImage] is the run in a row.
    - [Server] is the session store, the upload directory and the deferred
      work.  The photo counter file and the event log of [log-service.js]
      are not part of it: the count that a status poll reads is an argument
      of the poll, and the [photoUploaded()] that every upload request
      starts without awaiting it, which rewrites the counter file, has no
      counterpart in the model.
    - Library functions ([path.basename], [path.join], [mime.lookup]) and the
      configuration read from the environment are parameters. *)

From stdpp Require Import gmap strings list fin_maps sorting.
From Stdlib Require Import ZArith Ascii.

Local Open Scope Z_scope.

(** ** Data model *)

Inductive Status :=
| waiting_for_sender
| connected
| sender_disconnected
| receiver_disconnected.

#[global] Instance Status_eq_dec : EqDecision Status.
Proof. solve_decision. Defined.

(** The value stored under a session id in [sessions] (server.js, line 37). *)
Record Session := mkSession {
  status : Status;
  receiverLastSeen : Z;
  senderLastSeen : Z;
  expiresAt : Z;
  imagePaths : gmap string string;
  pendingImageIds : list string;
  qrUrl : string;
  qrData : string;
  createdAt : Z
}.

Definition set_status (v : Status) (s : Session) : Session :=
  mkSession v (receiverLastSeen s) (senderLastSeen s) (expiresAt s)
            (imagePaths s) (pendingImageIds s) (qrUrl s) (qrData s) (createdAt s).

Definition set_receiverLastSeen (v : Z) (s : Session) : Session :=
  mkSession (status s) v (senderLastSeen s) (expiresAt s)
            (imagePaths s) (pendingImageIds s) (qrUrl s) (qrData s) (createdAt s).

Definition set_senderLastSeen (v : Z) (s : Session) : Session :=
  mkSession (status s) (receiverLastSeen s) v (expiresAt s)
            (imagePaths s) (pendingImageIds s) (qrUrl s) (qrData s) (createdAt s).

Definition set_expiresAt (v : Z) (s : Session) : Session :=
  mkSession (status s) (receiverLastSeen s) (senderLastSeen s) v
            (imagePaths s) (pendingImageIds s) (qrUrl s) (qrData s) (createdAt s).

Definition set_imagePaths (v : gmap string string) (s : Session) : Session :=
  mkSession (status s) (receiverLastSeen s) (senderLastSeen s) (expiresAt s)
            v (pendingImageIds s) (qrUrl s) (qrData s) (createdAt s).

Definition set_pendingImageIds (v : list string) (s : Session) : Session :=
  mkSession (status s) (receiverLastSeen s) (senderLastSeen s) (expiresAt s)
            (imagePaths s) v (qrUrl s) (qrData s) (createdAt s).

(** Work started by a handler and not awaited by it. *)
Inductive Task :=
| CleanupFiles (sessionId : string) (imagePathsToDelete : list string)
| PostSendCleanup (sessionId imageId imagePath : string).

(** The process: the [sessions] object, the files of the upload directory
    and the deferred work. *)
Record Server := mkServer {
  sessions : gmap string Session;
  disk : gmap string (list Byte.byte);
  deferred : list Task
}.

Definition set_sessions (v : gmap string Session) (srv : Server) : Server :=
  mkServer v (disk srv) (deferred srv).

Definition set_disk (v : gmap string (list Byte.byte)) (srv : Server) : Server :=
  mkServer (sessions srv) v (deferred srv).

Definition defer (t : Task) (srv : Server) : Server :=
  mkServer (sessions srv) (disk srv) (deferred srv ++ [t]).

(** In-place mutation of the session object reachable from [sessions]. *)
Definition store (sessionId : string) (session : Session) (srv : Server) : Server :=
  set_sessions (<[sessionId := session]> (sessions srv)) srv.

(** ** Replies *)

Record StatusPayload := mkStatusPayload {
  sessionStatus : Status;
  partnerConnected : bool;
  remainingTimeoutMs : Z;
  newImageIds : list string;
  photoCount : Z
}.

Inductive Reply :=
| Failure (code : Z) (message : string)
| SessionCreated (sessionId fullURL qrCodeData : string) (timeoutMs pollingIntervalMs : Z)
| SenderConnected (sessionId : string) (timeoutMs pollingIntervalMs : Z)
| StatusReport (payload : StatusPayload)
| UploadAccepted (message : string)
| ImageBytes (contentType : string) (body : list Byte.byte).

(** The HTTP status code of a reply. *)
Definition httpCode (r : Reply) : Z :=
  match r with
  | Failure code _ => code
  | SessionCreated _ _ _ _ _ => 201
  | SenderConnected _ _ _ => 200
  | StatusReport _ => 200
  | UploadAccepted _ => 200
  | ImageBytes _ _ => 200
  end.

(** The body of a status reply. *)
Definition reported (r : Reply) : option StatusPayload :=
  match r with
  | StatusReport payload => Some payload
  | _ => None
  end.

(** JavaScript truthiness of a string: only the empty string is falsy. *)
Definition truthy (s : string) : bool := negb (bool_decide (s = "")).

(** Truthiness of a property read: [undefined] and the empty string are falsy. *)
Definition truthyProp (o : option string) : bool :=
  match o with
  | Some s => truthy s
  | None => false
  end.

(** ** File system *)

Inductive FsError := ENOENT.

Definition fs_unlink (path : string) (d : gmap string (list Byte.byte))
  : FsError + gmap string (list Byte.byte) :=
  match d !! path with
  | Some _ => inr (delete path d)
  | None => inl ENOENT
  end.

Definition fs_readFile (path : string) (d : gmap string (list Byte.byte))
  : FsError + list Byte.byte :=
  match d !! path with
  | Some content => inr content
  | None => inl ENOENT
  end.

Definition fs_writeFile (path : string) (content : list Byte.byte)
  (d : gmap string (list Byte.byte)) : gmap string (list Byte.byte) :=
  <[path := content]> d.

(** What the multipart parser hands to the upload route: no file part, a file
    part, or an exception thrown while the part is read or written
    ([limitExceeded] is the outcome of the test of the catch block). *)
Inductive UploadBody :=
| NoFile
| FilePart (filename : option string) (content : list Byte.byte)
| UploadThrows (limitExceeded : bool) (errMessage : string).

Definition POLLING_INTERVAL_MS : Z := 2000.
Definition CLEANUP_INTERVAL_MS : Z := 60000.

(** The process at start-up: no session, an empty upload directory. *)
Definition initial : Server := mkServer ∅ ∅ [].

(** Stand-ins for the library functions in the scenarios: file names without
    a directory part, POSIX paths, and a MIME table that knows no type. *)
Definition plainName (filename : string) : string := filename.

Definition joinWithSlash (dir name : string) : string := dir +:+ "/" +:+ name.

Definition unknownType (path : string) : option string := None.

(** ** Identifiers *)

(** The own property names of [Object.prototype], which [sessions[id]] and
    [imagePaths[id]] find on a plain object that has no such entry. *)
Definition objectPrototypeNames : list string :=
  ["constructor"; "__defineGetter__"; "__defineSetter__"; "hasOwnProperty";
   "__lookupGetter__"; "__lookupSetter__"; "isPrototypeOf";
   "propertyIsEnumerable"; "toString"; "valueOf"; "__proto__";
   "toLocaleString"].

Definition inherited (name : string) : bool :=
  bool_decide (name ∈ objectPrototypeNames).

(** ** Admin routes and client scripts

    The Basic-auth hook and the log route of [server.js], the pagination
    controls of [public/admin.js] and the file name shown by
    [public/receiver.js].  The string operations below look for ASCII
    characters only, so that positions count the same in every encoding of
    the string; page numbers and limits are integers. *)

(** [String.prototype.startsWith]. *)
Fixpoint startsWith (searchString s : string) : bool :=
  match searchString, s with
  | EmptyString, _ => true
  | String a p, String b r => bool_decide (a = b) && startsWith p r
  | String _ _, EmptyString => false
  end.

(** [String.prototype.substring] with a start index only. *)
Fixpoint substringFrom (start : nat) (s : string) : string :=
  match start, s with
  | O, _ => s
  | S n, String _ r => substringFrom n r
  | S _, EmptyString => EmptyString
  end.

(** [String.prototype.indexOf] for a search string of one character. *)
Fixpoint indexOf (c : Ascii.ascii) (s : string) : Z :=
  match s with
  | EmptyString => -1
  | String a r =>
      if bool_decide (a = c) then 0
      else let i := indexOf c r in if bool_decide (i < 0) then -1 else i + 1
  end.

(** What the [preHandler] hook does with a request: let it through, or
    answer it ([challenge]: the reply carries a WWW-Authenticate header). *)
Inductive AuthOutcome :=
| Proceed
| Reject (code : Z) (challenge : bool) (message : string).

(** [checkAdminAuth].  [ADMIN_CREDENTIALS] is the environment variable,
    [base64Decode] the decoding of the token ([None]: it throws),
    [authorization] the header of the request. *)
Definition checkAdminAuth (ADMIN_CREDENTIALS : option string)
  (base64Decode : string → option string) (authorization : option string) : AuthOutcome :=
  if negb (from_option truthy false ADMIN_CREDENTIALS)
  then Reject 500 false "Admin authentication not configured on server."
  else
    match authorization with
    | None => Reject 401 true "Authentication required."
    | Some authHeader =>
        if negb (truthy authHeader) || negb (startsWith "Basic " authHeader)
        then Reject 401 true "Authentication required."
        else
          let token := substringFrom 6 authHeader in
          match base64Decode token with
          | None => Reject 400 false "Invalid authentication token format."
          | Some decoded =>
              if bool_decide (Some decoded ≠ ADMIN_CREDENTIALS)
              then Reject 401 true "Invalid credentials."
              else Proceed
          end
    end.

(** [String.prototype.split] at line feeds. *)
Fixpoint splitLines (s : string) : list string :=
  match s with
  | EmptyString => [EmptyString]
  | String c r =>
      if bool_decide (c = "010"%char) then EmptyString :: splitLines r
      else match splitLines r with
           | line :: lines => String c line :: lines
           | [] => [String c EmptyString]
           end
  end.

(** [Math.ceil(a / b)] on integers, [b] positive. *)
Definition ceilDiv (a b : Z) : Z := - ((- a) / b).

(** [Array.prototype.slice(start, end)] for bounds that are not negative. *)
Definition slice {A} (start stop : Z) (l : list A) : list A :=
  take (Z.to_nat stop - Z.to_nat start) (drop (Z.to_nat start) l).

(** The log file as the route finds it: absent, unreadable, or with its
    text. *)
Inductive LogFile :=
| NoLogFile
| UnreadableLogFile
| LogFileData (logData : string).

Section Logs.

Context {Log : Type}.
Variable trim : string → string.
Variable parseJSON : string → option Log.
Variable sortLogs : string → string → list Log → option (list Log).

Record LogsPage := mkLogsPage {
  logs : list Log;
  currentPage : Z;
  totalPages : Z;
  totalLogs : Z
}.

Inductive LogsReply :=
| LogsFailure (code : Z) (message : string)
| LogsOk (page : LogsPage).

(** The entries of the log file: the lines that are not blank and that
    [JSON.parse] accepts ([None]: it throws or yields [null]), sorted by
    [sortLogs]: [Array.prototype.sort] with the comparator of the route for
    the given column and order ([None]: the comparator throws). *)
Definition readLogs (sort order : string) (logData : string) : option (list Log) :=
  sortLogs sort order
    (omap parseJSON
       (filter (λ line, trim line ≠ EmptyString) (splitLines logData))).

Definition paginate (allLogs : list Log) (pageNum limitNum : Z) : LogsPage :=
  let totalLogs := Z.of_nat (length allLogs) in
  let totalPages := ceilDiv totalLogs limitNum in
  let offset := (pageNum - 1) * limitNum in
  mkLogsPage (slice offset (offset + limitNum) allLogs) pageNum totalPages totalLogs.

(** GET /api/logs, behind [checkAdminAuth].  [page] and [limit] are the
    query parameters after [parseInt]: [None] for an absent parameter,
    [Some None] for one that parses to NaN, [Some (Some n)] for one that
    parses to the integer [n]. *)
Definition apiLogs (page limit : option (option Z)) (sort order : option string)
  (logFile : LogFile) : LogsReply :=
  let pageNum := default (Some 1) page in
  let limitNum := default (Some 50) limit in
  let sort := default "timestamp" sort in
  let order := default "desc" order in
  match pageNum, limitNum with
  | Some pageNum, Some limitNum =>
      if bool_decide (pageNum < 1) || bool_decide (limitNum < 1)
      then LogsFailure 400 "Invalid page or limit parameter."
      else
        match logFile with
        | NoLogFile => LogsOk (mkLogsPage [] 1 0 0)
        | UnreadableLogFile => LogsFailure 500 "Failed to read or process logs."
        | LogFileData logData =>
            match readLogs sort order logData with
            | Some allLogs => LogsOk (paginate allLogs pageNum limitNum)
            | None => LogsFailure 500 "Failed to read or process logs."
            end
        end
  | _, _ => LogsFailure 400 "Invalid page or limit parameter."
  end.

Definition logsOf (r : LogsReply) : list Log :=
  match r with
  | LogsOk page => logs page
  | LogsFailure _ _ => []
  end.

End Logs.

(** admin.js: what a pagination button stands for, and the controls. *)
Inductive PageTarget :=
| PrevPage
| NextPage
| PageNumber (n : Z).

Inductive Control :=
| Button (pageNumValue : PageTarget) (isDisabled isActive : bool)
| EllipsisSpan.

Definition maxPagesToShow : Z := 5.

(** The first and the last page of the row of numbered buttons. *)
Definition pageWindow (pageToRenderActive totalPagesToRender : Z) : Z * Z :=
  let startPage := Z.max 1 (pageToRenderActive - maxPagesToShow / 2) in
  let endPage := Z.min totalPagesToRender (startPage + maxPagesToShow - 1) in
  let startPage :=
    if bool_decide (endPage = totalPagesToRender)
    then Z.max 1 (totalPagesToRender - maxPagesToShow + 1)
    else startPage in
  (startPage, endPage).

(** [renderPagination]: the controls appended, from left to right.  The
    text of a button is 'Previous', 'Next' or the decimal page number. *)
Definition renderPagination (pageToRenderActive totalPagesToRender : Z) : list Control :=
  if bool_decide (totalPagesToRender ≤ 1) then []
  else
    let '(startPage, endPage) := pageWindow pageToRenderActive totalPagesToRender in
    [Button PrevPage (bool_decide (pageToRenderActive = 1)) false]
    ++ (if bool_decide (startPage > 1)
        then Button (PageNumber 1) false false
             :: (if bool_decide (startPage > 2) then [EllipsisSpan] else [])
        else [])
    ++ ((λ i, Button (PageNumber i) false (bool_decide (i = pageToRenderActive)))
          <$> seqZ startPage (endPage - startPage + 1))
    ++ (if bool_decide (endPage < totalPagesToRender)
        then (if bool_decide (endPage < totalPagesToRender - 1) then [EllipsisSpan] else [])
             ++ [Button (PageNumber totalPagesToRender) false false]
        else [])
    ++ [Button NextPage (bool_decide (pageToRenderActive = totalPagesToRender)) false].

(** A click listener is attached to the buttons that are neither disabled
    nor active. *)
Definition clickable (c : Control) : bool :=
  match c with
  | Button _ isDisabled isActive => negb isDisabled && negb isActive
  | EllipsisSpan => false
  end.

(** The listener: the new value of the global [currentPage]. *)
Definition clickPage (pageNumValue : PageTarget) (currentPage totalPages : Z) : Z :=
  match pageNumValue with
  | PrevPage => if bool_decide (currentPage > 1) then currentPage - 1 else currentPage
  | NextPage => if bool_decide (currentPage < totalPages) then currentPage + 1 else currentPage
  | PageNumber n => n
  end.

(** The page numbers on the buttons, from left to right. *)
Definition pageNumbers (controls : list Control) : list Z :=
  omap (λ c, match c with
             | Button (PageNumber n) _ _ => Some n
             | _ => None
             end) controls.

(** The page numbers on the buttons marked active. *)
Definition activePages (controls : list Control) : list Z :=
  omap (λ c, match c with
             | Button (PageNumber n) _ true => Some n
             | _ => None
             end) controls.

(** receiver.js: the file name shown under a received image. *)
Definition originalFilename (imageId : string) : string :=
  substringFrom (Z.to_nat (indexOf "-"%char imageId + 1)) imageId.

Definition shownFilename (imageId : string) : string :=
  if truthy (originalFilename imageId) then originalFilename imageId else imageId.

(** The name under which the upload route stores a file part. *)
Definition uploadedName (basename : string → string) (filename : option string) : string :=
  match filename with
  | Some f => if truthy f then basename f else "uploaded-image"
  | None => "uploaded-image"
  end.

(** A property of every event of an explicit trace. *)
Ltac each_event tac := repeat (apply Forall_cons_2; [tac|]); apply Forall_nil_2.

(** ** Handlers *)

Section Handlers.

Set Default Proof Using "Type".

Variable SESSION_TIMEOUT_MS : Z.
Variable CLIENT_TIMEOUT_MS : Z.
Variable UPLOAD_DIR : string.
Variable basename : string → string.
Variable path_join : string → string → string.
Variable mime_lookup : string → option string.

Definition calculateExpiresAt (dateNow : Z) : Z := dateNow + SESSION_TIMEOUT_MS.

(** [cleanupSession]: the record is removed at once; the loop that unlinks
    the files is left behind as deferred work. *)
Definition cleanupSession (sessionId : string) (srv : Server) : Server :=
  match sessions srv !! sessionId with
  | None => srv
  | Some session =>
      let srv1 := set_sessions (delete sessionId (sessions srv)) srv in
      let imagePathsToDelete := (map_to_list (imagePaths session)).*2 in
      if bool_decide (0 < length imagePathsToDelete)%nat
      then defer (CleanupFiles sessionId imagePathsToDelete) srv1
      else srv1
  end.

(** The body of the loop of [runExpiredSessionCleanup]. *)
Definition expireIfDue (now : Z) (srv : Server) (sessionId : string) : Server :=
  match sessions srv !! sessionId with
  | Some session =>
      if bool_decide (expiresAt session < now)
      then cleanupSession sessionId srv
      else srv
  | None => srv
  end.

(** [runExpiredSessionCleanup]: the callback of the interval timer, a loop
    over [Object.keys(sessions)]. *)
Definition runExpiredSessionCleanup (now : Z) (srv : Server) : Server :=
  foldl (expireIfDue now) srv (map_to_list (sessions srv)).*1.

(** POST /api/session/request.  [sessionId] is the fresh [uuidv4()],
    [fullUrl] the sender URL built from the forwarded headers and the
    identifier; [qrCodeDataUrl] is [None] when the QR generator throws. *)
Definition requestPairing (sessionId : string) (now nowExp : Z) (fullUrl : string)
  (qrCodeDataUrl : option string) (srv : Server) : Reply * Server :=
  let expiresAt := calculateExpiresAt nowExp in
  match qrCodeDataUrl with
  | Some qr =>
      (SessionCreated sessionId fullUrl qr SESSION_TIMEOUT_MS POLLING_INTERVAL_MS,
       store sessionId
             (mkSession waiting_for_sender now 0 expiresAt ∅ [] fullUrl qr now) srv)
  | None => (Failure 500 "Failed to generate QR code.", srv)
  end.

(** POST /api/session/:sessionId/connect. *)
Definition connectSender (sessionId : string) (now nowExp : Z) (srv : Server)
  : Reply * Server :=
  match sessions srv !! sessionId with
  | None => (Failure 404 "Invalid or expired session ID.", srv)
  | Some session =>
      if bool_decide (status session ≠ waiting_for_sender)
         && bool_decide (status session = connected)
         && bool_decide (senderLastSeen session > 0)
      then (Failure 409 "Session already has an active sender.", srv)
      else
        let session1 := set_status connected session in
        let session2 := set_senderLastSeen now session1 in
        let session3 := set_expiresAt (calculateExpiresAt nowExp) session2 in
        (SenderConnected sessionId SESSION_TIMEOUT_MS POLLING_INTERVAL_MS,
         store sessionId session3 srv)
  end.

(** The last-seen update and the staleness transition of a status poll. *)
Definition touch (receiver : bool) (now : Z) (session : Session) : Session :=
  if receiver then
    let session1 := set_receiverLastSeen now session in
    if bool_decide (status session1 = connected)
       && bool_decide (now > senderLastSeen session1 + CLIENT_TIMEOUT_MS)
    then set_status sender_disconnected session1
    else session1
  else
    let session1 := set_senderLastSeen now session in
    if bool_decide (status session1 = connected)
       && bool_decide (now > receiverLastSeen session1 + CLIENT_TIMEOUT_MS)
    then set_status receiver_disconnected session1
    else session1.

(** POST /api/session/:sessionId/status?client=...  [count] is the value
    read from the photo counter file. *)
Definition pollStatus (sessionId : string) (clientType : option string)
  (now count : Z) (srv : Server) : Reply * Server :=
  if negb (bool_decide (clientType = Some "receiver"))
     && negb (bool_decide (clientType = Some "sender"))
  then (Failure 400 "Missing or invalid client type query parameter.", srv)
  else
    match sessions srv !! sessionId with
    | None => (Failure 404 "Session not found or expired.", srv)
    | Some session =>
        let receiver := bool_decide (clientType = Some "receiver") in
        let session1 := touch receiver now session in
        let srv1 := store sessionId session1 srv in
        if bool_decide (expiresAt session1 < now)
        then (Failure 404 "Session expired.", cleanupSession sessionId srv1)
        else
          let drain :=
            receiver && bool_decide (0 < length (pendingImageIds session1))%nat in
          let payload :=
            mkStatusPayload (status session1)
                            (bool_decide (status session1 = connected))
                            (Z.max 0 (expiresAt session1 - now))
                            (if drain then pendingImageIds session1 else [])
                            (Z.max 0 count) in
          (StatusReport payload,
           if drain then store sessionId (set_pendingImageIds [] session1) srv1
           else srv1)
    end.

(** POST /upload?sessionId=...  [uuid] is the fresh [uuidv4()] of the image
    identifier. *)
Definition uploadImage (sessionId : option string) (now nowExp : Z) (uuid : string)
  (body : UploadBody) (srv : Server) : Reply * Server :=
  match sessionId with
  | None => (Failure 400 "Missing, invalid or expired session ID.", srv)
  | Some sid =>
      match (if truthy sid then sessions srv !! sid else None) with
      | None => (Failure 400 "Missing, invalid or expired session ID.", srv)
      | Some session =>
          if bool_decide (status session ≠ connected)
          then
            (Failure 400
               (if bool_decide (status session = waiting_for_sender)
                then "Sender has not connected yet."
                else "Session is not active or receiver is disconnected."),
             srv)
          else if bool_decide (now > receiverLastSeen session + SESSION_TIMEOUT_MS)
          then
            (Failure 400 "Receiver partner disconnected.",
             cleanupSession sid (store sid (set_status receiver_disconnected session) srv))
          else
            let session1 := set_expiresAt (calculateExpiresAt nowExp) session in
            let srv1 := store sid session1 srv in
            match body with
            | NoFile => (Failure 400 "No file uploaded.", srv1)
            | UploadThrows limitExceeded errMessage =>
                if limitExceeded
                then (Failure 413 ("File upload error: Limit exceeded. " +:+ errMessage), srv1)
                else (Failure 500 ("Failed to process upload: " +:+ errMessage), srv1)
            | FilePart filename content =>
                let originalFilename :=
                  match filename with
                  | Some f => if truthy f then basename f else "uploaded-image"
                  | None => "uploaded-image"
                  end in
                let imageId := uuid +:+ "-" +:+ originalFilename in
                let imagePath := path_join UPLOAD_DIR imageId in
                let srv2 := set_disk (fs_writeFile imagePath content (disk srv1)) srv1 in
                let session2 :=
                  set_imagePaths (<[imageId := imagePath]> (imagePaths session1)) session1 in
                let session3 :=
                  set_pendingImageIds (pendingImageIds session2 ++ [imageId]) session2 in
                (UploadAccepted ("File " +:+ originalFilename +:+ " uploaded successfully."),
                 store sid session3 srv2)
            end
      end
  end.

(** The upload route in the steps that the event loop sees.

    [uploadBegin], lines 375 to 404: the session is looked up and checked and
    its deadline renewed; then the route awaits the file part.  The route
    has answered ([inl]), or goes on with the session it found under the
    identifier ([inr]). *)
Definition uploadBegin (sessionId : option string) (now nowExp : Z) (srv : Server)
  : (Reply + string) * Server :=
  match sessionId with
  | None => (inl (Failure 400 "Missing, invalid or expired session ID."), srv)
  | Some sid =>
      match (if truthy sid then sessions srv !! sid else None) with
      | None => (inl (Failure 400 "Missing, invalid or expired session ID."), srv)
      | Some session =>
          if bool_decide (status session ≠ connected)
          then
            (inl (Failure 400
                    (if bool_decide (status session = waiting_for_sender)
                     then "Sender has not connected yet."
                     else "Session is not active or receiver is disconnected.")),
             srv)
          else if bool_decide (now > receiverLastSeen session + SESSION_TIMEOUT_MS)
          then
            (inl (Failure 400 "Receiver partner disconnected."),
             cleanupSession sid (store sid (set_status receiver_disconnected session) srv))
          else
            (inr sid, store sid (set_expiresAt (calculateExpiresAt nowExp) session) srv)
      end
  end.

(** [uploadWrite], lines 410 to 422: the file part is read and written to
    the upload directory; the session is not touched.  The route has answered
    ([inl]), or goes on with the file name of the part ([inr]). *)
Definition uploadWrite (uuid : string) (body : UploadBody) (srv : Server)
  : (Reply + option string) * Server :=
  match body with
  | NoFile => (inl (Failure 400 "No file uploaded."), srv)
  | UploadThrows limitExceeded errMessage =>
      (inl (if limitExceeded
            then Failure 413 ("File upload error: Limit exceeded. " +:+ errMessage)
            else Failure 500 ("Failed to process upload: " +:+ errMessage)),
       srv)
  | FilePart filename content =>
      let imageId := uuid +:+ "-" +:+ uploadedName basename filename in
      (inr filename,
       set_disk (fs_writeFile (path_join UPLOAD_DIR imageId) content (disk srv)) srv)
  end.

(** [uploadFinish], lines 428 to 439: the entry and the queue are written on
    the session object that [uploadBegin] looked up, and the route answers
    200.  That object is the one stored under the identifier for as long as
    the session is stored (an identifier is a fresh uuid, under which no
    second session is created); once the session is removed, the object is
    out of reach of [sessions] and what is written on it is lost. *)
Definition uploadFinish (sid uuid : string) (filename : option string) (srv : Server)
  : Reply * Server :=
  let originalFilename := uploadedName basename filename in
  let imageId := uuid +:+ "-" +:+ originalFilename in
  let imagePath := path_join UPLOAD_DIR imageId in
  (UploadAccepted ("File " +:+ originalFilename +:+ " uploaded successfully."),
   match sessions srv !! sid with
   | Some session =>
       let session2 :=
         set_imagePaths (<[imageId := imagePath]> (imagePaths session)) session in
       let session3 :=
         set_pendingImageIds (pendingImageIds session2 ++ [imageId]) session2 in
       store sid session3 srv
   | None => srv
   end).

(** The three steps with nothing in between. *)
Definition uploadInOneRun (sessionId : option string) (now nowExp : Z) (uuid : string)
  (body : UploadBody) (srv : Server) : Reply * Server :=
  match uploadBegin sessionId now nowExp srv with
  | (inl reply, srv1) => (reply, srv1)
  | (inr sid, srv1) =>
      match uploadWrite uuid body srv1 with
      | (inl reply, srv2) => (reply, srv2)
      | (inr filename, srv2) => uploadFinish sid uuid filename srv2
      end
  end.

(** GET /image/:sessionId/:imageId.  The reply is sent first; the unlink and
    the removal of the map entry are deferred with [process.nextTick]. *)
Definition fetchImage (sessionId imageId : string) (srv : Server) : Reply * Server :=
  match (if truthy sessionId then sessions srv !! sessionId else None) with
  | None => (Failure 404 "Image not found or session invalid.", srv)
  | Some session =>
      match imagePaths session !! imageId with
      | None => (Failure 404 "Image not found (invalid image ID for this session).", srv)
      | Some imagePath =>
          if negb (truthy imagePath)
          then (Failure 404 "Image not found (invalid image ID for this session).", srv)
          else
            match fs_readFile imagePath (disk srv) with
            | inl ENOENT => (Failure 404 "Image file not found.", srv)
            | inr imageBuffer =>
                let mimeType :=
                  match mime_lookup imagePath with
                  | Some m => if truthy m then m else "application/octet-stream"
                  | None => "application/octet-stream"
                  end in
                (ImageBytes mimeType imageBuffer,
                 defer (PostSendCleanup sessionId imageId imagePath) srv)
            end
      end
  end.

(** ** Deferred work *)

(** The try/catch around [fs.unlink] in the loop of [cleanupSession]: every
    error is logged and swallowed. *)
Definition unlinkQuietly (imagePath : string) (srv : Server) : Server :=
  match fs_unlink imagePath (disk srv) with
  | inr d => set_disk d srv
  | inl ENOENT => srv
  end.

(** One turn of a deferred task: the new state and what remains of the task. *)
Definition runTask (t : Task) (srv : Server) : Server * option Task :=
  match t with
  | CleanupFiles sessionId [] => (srv, None)
  | CleanupFiles sessionId (imagePath :: rest) =>
      (unlinkQuietly imagePath srv,
       match rest with
       | [] => None
       | _ :: _ => Some (CleanupFiles sessionId rest)
       end)
  | PostSendCleanup sessionId imageId imagePath =>
      match fs_unlink imagePath (disk srv) with
      | inl ENOENT => (srv, None)
      | inr d =>
          let srv1 := set_disk d srv in
          match sessions srv1 !! sessionId with
          | Some currentSession =>
              if truthyProp (imagePaths currentSession !! imageId)
              then
                (store sessionId
                       (set_imagePaths (delete imageId (imagePaths currentSession))
                                       currentSession) srv1,
                 None)
              else (srv1, None)
          | None => (srv1, None)
          end
      end
  end.

(** The event loop resumes the [n]-th piece of deferred work for one turn. *)
Definition runDeferred (n : nat) (srv : Server) : Server :=
  match deferred srv !! n with
  | None => srv
  | Some t =>
      let '(srv1, rest) := runTask t srv in
      mkServer (sessions srv1) (disk srv1)
               (match rest with
                | Some t' => <[n := t']> (deferred srv1)
                | None => delete n (deferred srv1)
                end)
  end.

(** The whole unlink loop of [cleanupSession], run to its end. *)
Definition unlinkAll (imagePathsToDelete : list string) (srv : Server) : Server :=
  foldl (λ acc imagePath, unlinkQuietly imagePath acc) srv imagePathsToDelete.

(** ** Executions *)

Inductive Request :=
| RequestPairing (sessionId : string) (now nowExp : Z) (fullUrl : string)
    (qrCodeDataUrl : option string)
| ConnectSender (sessionId : string) (now nowExp : Z)
| PollStatus (sessionId : string) (clientType : option string) (now count : Z)
| UploadImage (sessionId : option string) (now nowExp : Z) (uuid : string)
    (body : UploadBody)
| FetchImage (sessionId imageId : string).

Definition handle (r : Request) (srv : Server) : Reply * Server :=
  match r with
  | RequestPairing sessionId now nowExp fullUrl qr =>
      requestPairing sessionId now nowExp fullUrl qr srv
  | ConnectSender sessionId now nowExp => connectSender sessionId now nowExp srv
  | PollStatus sessionId clientType now count =>
      pollStatus sessionId clientType now count srv
  | UploadImage sessionId now nowExp uuid body =>
      uploadImage sessionId now nowExp uuid body srv
  | FetchImage sessionId imageId => fetchImage sessionId imageId srv
  end.

(** What the event loop does next: serve a request, fire the sweeper, or
    resume deferred work. *)
Inductive Event :=
| Serve (r : Request)
| Sweep (now : Z)
| Resume (n : nat).

Definition step (e : Event) (srv : Server) : option Reply * Server :=
  match e with
  | Serve r => let '(reply, srv1) := handle r srv in (Some reply, srv1)
  | Sweep now => (None, runExpiredSessionCleanup now srv)
  | Resume n => (None, runDeferred n srv)
  end.

(** An execution: the replies sent, in order, and the final state. *)
Fixpoint exec (tr : list Event) (srv : Server) : list (Event * option Reply) * Server :=
  match tr with
  | [] => ([], srv)
  | e :: tr' =>
      let '(reply, srv1) := step e srv in
      let '(log, srv2) := exec tr' srv1 in
      ((e, reply) :: log, srv2)
  end.

(** The image identifier that an upload request generates when it carries a
    file part. *)
Definition generatedImageId (r : Request) : option string :=
  match r with
  | UploadImage _ _ _ uuid (FilePart filename _) =>
      Some (uuid +:+ "-" +:+
            match filename with
            | Some f => if truthy f then basename f else "uploaded-image"
            | None => "uploaded-image"
            end)
  | _ => None
  end.

(** The identifiers of the images accepted for [sessionId], in the order of
    the log. *)
Fixpoint uploadedTo (sessionId : string) (log : list (Event * option Reply))
  : list string :=
  match log with
  | [] => []
  | (Serve (UploadImage (Some sid) now nowExp uuid body), Some (UploadAccepted _)) :: log' =>
      if bool_decide (sid = sessionId)
      then match generatedImageId (UploadImage (Some sid) now nowExp uuid body) with
           | Some imageId => imageId :: uploadedTo sessionId log'
           | None => uploadedTo sessionId log'
           end
      else uploadedTo sessionId log'
  | _ :: log' => uploadedTo sessionId log'
  end.

(** ** Auxiliary notions *)

(** The session that a request addresses. *)
Definition target (r : Request) : option string :=
  match r with
  | RequestPairing sessionId _ _ _ _ => Some sessionId
  | ConnectSender sessionId _ _ => Some sessionId
  | PollStatus sessionId _ _ _ => Some sessionId
  | UploadImage sessionId _ _ _ _ => sessionId
  | FetchImage sessionId _ => Some sessionId
  end.

(** Events that may lie between two consecutive receiver polls of a session:
    anything but a receiver poll of it, or the creation of a session under
    its (unique) identifier. *)
Definition betweenReceiverPolls (sessionId : string) (e : Event) : Prop :=
  match e with
  | Serve (PollStatus sid clientType _ _) =>
      ¬ (sid = sessionId ∧ clientType = Some "receiver")
  | Serve (RequestPairing sid _ _ _ _) => sid ≠ sessionId
  | _ => True
  end.

(** Events that do not store an image under [imageId] (identifiers are made
    of a fresh uuid, so no later upload does). *)
Definition doesNotUpload (imageId : string) (e : Event) : Prop :=
  match e with
  | Serve r => generatedImageId r ≠ Some imageId
  | _ => True
  end.

(** Requests whose identifiers are no names inherited from
    [Object.prototype]. *)
Definition wellNamed (r : Request) : Prop :=
  match r with
  | RequestPairing _ _ _ _ _ => True
  | ConnectSender sessionId _ _ => inherited sessionId = false
  | PollStatus sessionId _ _ _ => inherited sessionId = false
  | UploadImage (Some sessionId) _ _ _ _ => inherited sessionId = false
  | UploadImage None _ _ _ _ => True
  | FetchImage sessionId imageId =>
      inherited sessionId = false ∧ inherited imageId = false
  end.

Definition wellNamedEvent (e : Event) : Prop :=
  match e with
  | Serve r => wellNamed r
  | _ => True
  end.

(** The same request with another value read from the photo counter. *)
Definition withCount (count : Z) (r : Request) : Request :=
  match r with
  | PollStatus sessionId clientType now _ => PollStatus sessionId clientType now count
  | _ => r
  end.

(** A reply without its photo count. *)
Definition withoutPhotoCount (reply : Reply) : Reply :=
  match reply with
  | StatusReport payload =>
      StatusReport (mkStatusPayload (sessionStatus payload) (partnerConnected payload)
                                    (remainingTimeoutMs payload) (newImageIds payload) 0)
  | _ => reply
  end.

(** The server with the deadline of one session blotted out. *)
Definition forgetDeadline (sessionId : string) (srv : Server) : Server :=
  set_sessions (alter (set_expiresAt 0) sessionId (sessions srv)) srv.

(** Two outcomes of a handler that differ at most in the deadline of
    [sessionId]. *)
Definition sameButDeadline (sessionId : string) (a b : Reply * Server) : Prop :=
  a.1 = b.1 ∧ forgetDeadline sessionId a.2 = forgetDeadline sessionId b.2.

(** Events that create a session under [sessionId]. *)
Definition creates (sessionId : string) (e : Event) : Prop :=
  match e with
  | Serve (RequestPairing sid _ _ _ _) => sid = sessionId
  | _ => False
  end.

(** Sessions that wait for their sender hold no image. *)
Definition waitingHoldsNothing (srv : Server) : Prop :=
  ∀ sid s, sessions srv !! sid = Some s → status s = waiting_for_sender →
           imagePaths s = ∅ ∧ pendingImageIds s = [].

(** Every image entry points to the file of the upload directory named
    after the identifier, and the directory holds no other file. *)
Definition keepsToUploadDir (srv : Server) : Prop :=
  (∀ sid s imageId imagePath,
     sessions srv !! sid = Some s → imagePaths s !! imageId = Some imagePath →
     imagePath = path_join UPLOAD_DIR imageId)
  ∧ (∀ p, is_Some (disk srv !! p) → ∃ imageId, p = path_join UPLOAD_DIR imageId).

(** A session with at most one entry of its image map removed. *)
Definition without_image (imageId : option string) (s : Session) : Session :=
  match imageId with
  | Some i => set_imagePaths (delete i (imagePaths s)) s
  | None => s
  end.

(** ** Basic facts *)

(** Branches of a handler that leave the addressed session as it was. *)
Ltac unchanged := simpl; intros; simplify_eq; eauto.

Arguments touch : simpl never.
Arguments cleanupSession : simpl never.

Lemma touch_expiresAt receiver now session :
  expiresAt (touch receiver now session) = expiresAt session.
Proof. unfold touch. destruct receiver; simpl; case_match; reflexivity. Qed.

Lemma touch_pendingImageIds receiver now session :
  pendingImageIds (touch receiver now session) = pendingImageIds session.
Proof. unfold touch. destruct receiver; simpl; case_match; reflexivity. Qed.

Lemma touch_imagePaths receiver now session :
  imagePaths (touch receiver now session) = imagePaths session.
Proof. unfold touch. destruct receiver; simpl; case_match; reflexivity. Qed.

Lemma touch_status_connected receiver now session :
  status (touch receiver now session) = connected → status session = connected.
Proof.
  unfold touch. destruct receiver; simpl; case_match eqn:E; simpl; try done;
    apply andb_true_iff in E as [E _]; by apply bool_decide_eq_true in E.
Qed.

Lemma touch_status_stable receiver now session :
  status session ≠ connected → status (touch receiver now session) = status session.
Proof.
  intros Hne. unfold touch. destruct receiver; simpl; case_match eqn:E; simpl; try done;
    apply andb_true_iff in E as [E _]; by apply bool_decide_eq_true in E.
Qed.

Lemma truthy_true s : s ≠ "" → truthy s = true.
Proof. intros H. unfold truthy. by rewrite bool_decide_eq_false_2. Qed.

Lemma cleanupSession_sessions sessionId srv :
  sessions (cleanupSession sessionId srv) = delete sessionId (sessions srv).
Proof.
  unfold cleanupSession. destruct (sessions srv !! sessionId) eqn:E.
  - by case_bool_decide.
  - symmetry. by apply delete_id.
Qed.

Lemma cleanupSession_gone sessionId srv :
  sessions (cleanupSession sessionId srv) !! sessionId = None.
Proof. rewrite cleanupSession_sessions. apply lookup_delete_eq. Qed.

Lemma cleanupSession_other sessionId sid srv :
  sessionId ≠ sid →
  sessions (cleanupSession sessionId srv) !! sid = sessions srv !! sid.
Proof. intros H. rewrite cleanupSession_sessions. by apply lookup_delete_ne. Qed.

Lemma cleanupSession_disk sessionId srv :
  disk (cleanupSession sessionId srv) = disk srv.
Proof.
  unfold cleanupSession. destruct (sessions srv !! sessionId); [|done].
  by case_bool_decide.
Qed.

Lemma cleanupSession_deferred sessionId srv session :
  sessions srv !! sessionId = Some session →
  imagePaths session ≠ ∅ →
  deferred (cleanupSession sessionId srv)
  = deferred srv ++ [CleanupFiles sessionId (map_to_list (imagePaths session)).*2].
Proof.
  intros Hs Hne. unfold cleanupSession. rewrite Hs.
  case_bool_decide as Hlen; [done|]. exfalso.
  rewrite length_fmap, length_map_to_list in Hlen.
  destruct (decide (size (imagePaths session) = 0%nat)) as [E|E]; [|lia].
  by apply map_size_empty_iff in E.
Qed.

Lemma cleanupSession_deferred_prefix sessionId srv t :
  t ∈ deferred srv → t ∈ deferred (cleanupSession sessionId srv).
Proof.
  intros Ht. unfold cleanupSession. destruct (sessions srv !! sessionId); [|done].
  case_bool_decide; [|done]. simpl. apply elem_of_app. by left.
Qed.

(** *** The sweeper *)

Lemma expireIfDue_lookup now srv k sid :
  sessions (expireIfDue now srv k) !! sid
  = match sessions srv !! sid with
    | Some s => if bool_decide (k = sid ∧ expiresAt s < now) then None else Some s
    | None => None
    end.
Proof.
  unfold expireIfDue. destruct (decide (k = sid)) as [->|Hne].
  - destruct (sessions srv !! sid) as [s|] eqn:E; [|by rewrite E].
    case_bool_decide.
    + rewrite cleanupSession_gone. by rewrite bool_decide_eq_true_2.
    + rewrite E. rewrite bool_decide_eq_false_2; [done|]. by intros [_ ?].
  - assert (sessions (match sessions srv !! k with
                      | Some session =>
                          if bool_decide (expiresAt session < now)
                          then cleanupSession k srv else srv
                      | None => srv
                      end) !! sid = sessions srv !! sid) as ->.
    { destruct (sessions srv !! k); [|done]. case_bool_decide; [|done].
      by apply cleanupSession_other. }
    destruct (sessions srv !! sid); [|done].
    rewrite bool_decide_eq_false_2; [done|]. by intros [? _].
Qed.

Lemma sweep_fold_lookup now l srv sid :
  sessions (foldl (expireIfDue now) srv l) !! sid
  = match sessions srv !! sid with
    | Some s => if bool_decide (sid ∈ l ∧ expiresAt s < now) then None else Some s
    | None => None
    end.
Proof.
  revert srv. induction l as [|k l IH]; intros srv; cbn [foldl].
  - destruct (sessions srv !! sid); [|done].
    rewrite bool_decide_eq_false_2; [done|]. intros [H _]. by apply not_elem_of_nil in H.
  - rewrite IH, expireIfDue_lookup. destruct (sessions srv !! sid) as [s|]; [|done].
    destruct (decide (expiresAt s < now)) as [Hexp|Hexp].
    + destruct (decide (k = sid)) as [->|Hne].
      * rewrite (bool_decide_eq_true_2 (sid = sid ∧ _)) by done.
        rewrite bool_decide_eq_true_2; [done|]. split; [left|done].
      * rewrite (bool_decide_eq_false_2 (k = sid ∧ _)) by (by intros [? _]).
        rewrite (bool_decide_ext (sid ∈ l ∧ expiresAt s < now)
                                 (sid ∈ k :: l ∧ expiresAt s < now)); [done|].
        rewrite elem_of_cons.
        split; [intros [??]; split; [by right|done] | intros [[->|?] ?]; done].
    + rewrite (bool_decide_eq_false_2 (k = sid ∧ _)) by (by intros [_ ?]).
      rewrite !bool_decide_eq_false_2 by (by intros [_ ?]). done.
Qed.

Lemma sweep_lookup now srv sid :
  sessions (runExpiredSessionCleanup now srv) !! sid
  = match sessions srv !! sid with
    | Some s => if bool_decide (expiresAt s < now) then None else Some s
    | None => None
    end.
Proof.
  unfold runExpiredSessionCleanup. rewrite sweep_fold_lookup.
  destruct (sessions srv !! sid) as [s|] eqn:E; [|done].
  rewrite (bool_decide_ext (sid ∈ (map_to_list (sessions srv)).*1 ∧ expiresAt s < now)
                           (expiresAt s < now)); [done|].
  split; [by intros [_ ?]|]. intros H. split; [|done].
  apply list_elem_of_fmap. exists (sid, s). split; [done|].
  by apply elem_of_map_to_list.
Qed.

Lemma sweep_fold_disk now l srv :
  disk (foldl (expireIfDue now) srv l) = disk srv.
Proof.
  revert srv. induction l as [|k l IH]; intros srv; cbn [foldl]; [done|].
  rewrite IH. unfold expireIfDue. destruct (sessions srv !! k); [|done].
  case_bool_decide; [|done]. apply cleanupSession_disk.
Qed.

Lemma expireIfDue_deferred_prefix now srv k t :
  t ∈ deferred srv → t ∈ deferred (expireIfDue now srv k).
Proof.
  intros Ht. unfold expireIfDue. destruct (sessions srv !! k); [|done].
  case_bool_decide; [|done]. by apply cleanupSession_deferred_prefix.
Qed.

Lemma sweep_fold_deferred_prefix now l srv t :
  t ∈ deferred srv → t ∈ deferred (foldl (expireIfDue now) srv l).
Proof.
  revert srv. induction l as [|k l IH]; intros srv Ht; cbn [foldl]; [done|].
  by apply IH, expireIfDue_deferred_prefix.
Qed.

(** A session that the loop removes leaves its unlink loop behind. *)
Lemma sweep_fold_deferred now l srv sid session :
  sessions srv !! sid = Some session →
  sessions (foldl (expireIfDue now) srv l) !! sid = None →
  imagePaths session ≠ ∅ →
  CleanupFiles sid (map_to_list (imagePaths session)).*2
  ∈ deferred (foldl (expireIfDue now) srv l).
Proof.
  revert srv. induction l as [|k l IH]; intros srv Hs Hgone Hne; cbn [foldl] in *.
  - congruence.
  - destruct (sessions (expireIfDue now srv k) !! sid) as [s'|] eqn:E.
    + assert (s' = session) as ->.
      { rewrite expireIfDue_lookup, Hs in E. case_bool_decide; congruence. }
      by apply IH.
    + apply sweep_fold_deferred_prefix.
      rewrite expireIfDue_lookup, Hs in E. case_bool_decide as Hk; [|done].
      destruct Hk as [-> Hexp]. unfold expireIfDue. rewrite Hs.
      rewrite bool_decide_eq_true_2 by done.
      rewrite (cleanupSession_deferred _ _ _ Hs Hne). apply elem_of_app. right.
      apply list_elem_of_singleton. done.
Qed.

(** *** Deferred work *)

Lemma runTask_sessions t srv sid :
  ∃ removed, sessions (runTask t srv).1 !! sid
             = without_image removed <$> sessions srv !! sid.
Proof.
  destruct t as [sessionId [|imagePath rest]|sessionId imageId imagePath]; simpl.
  - exists None. by destruct (sessions srv !! sid).
  - exists None. unfold unlinkQuietly.
    destruct (fs_unlink imagePath (disk srv)) as [[]|d]; simpl;
      by destruct (sessions srv !! sid).
  - destruct (fs_unlink imagePath (disk srv)) as [[]|d]; simpl.
    { exists None. by destruct (sessions srv !! sid). }
    destruct (sessions srv !! sessionId) as [currentSession|] eqn:E; simpl.
    2: { exists None. by destruct (sessions srv !! sid). }
    destruct (truthyProp (imagePaths currentSession !! imageId)); simpl.
    2: { exists None. by destruct (sessions srv !! sid). }
    destruct (decide (sessionId = sid)) as [->|Hne].
    + exists (Some imageId). by rewrite lookup_insert_eq, E.
    + exists None. rewrite lookup_insert_ne by done. by destruct (sessions srv !! sid).
Qed.

Lemma runDeferred_sessions n srv sid :
  ∃ removed, sessions (runDeferred n srv) !! sid
             = without_image removed <$> sessions srv !! sid.
Proof.
  unfold runDeferred. destruct (deferred srv !! n) as [t|].
  - destruct (runTask_sessions t srv sid) as [removed H]. exists removed.
    by destruct (runTask t srv).
  - exists None. by destruct (sessions srv !! sid).
Qed.

Lemma step_serve_state r srv : (step (Serve r) srv).2 = (handle r srv).2.
Proof. unfold step. destruct (handle r srv). reflexivity. Qed.

Lemma step_serve_reply r srv : (step (Serve r) srv).1 = Some (handle r srv).1.
Proof. unfold step. destruct (handle r srv). reflexivity. Qed.

Lemma exec_cons e tr srv :
  exec (e :: tr) srv
  = ((e, (step e srv).1) :: (exec tr (step e srv).2).1, (exec tr (step e srv).2).2).
Proof.
  cbn [exec]. destruct (step e srv) as [reply srv1]. cbn [fst snd].
  destruct (exec tr srv1). reflexivity.
Qed.

(** A request leaves every session but the one it addresses as it is. *)
Lemma handle_frame r srv sid :
  target r ≠ Some sid → sessions (handle r srv).2 !! sid = sessions srv !! sid.
Proof.
  destruct r as [sessionId now nowExp fullUrl qr|sessionId now nowExp
                |sessionId clientType now count|sessionId now nowExp uuid body
                |sessionId imageId]; simpl; intros Hne.
  - unfold requestPairing. destruct qr; [|done]. simpl.
    apply lookup_insert_ne. congruence.
  - unfold connectSender. destruct (sessions srv !! sessionId); [|done].
    case_match; [done|]. simpl. apply lookup_insert_ne. congruence.
  - unfold pollStatus. case_match; [done|].
    destruct (sessions srv !! sessionId); [|done].
    assert (sessionId ≠ sid) by congruence.
    case_match; simpl.
    + rewrite cleanupSession_other by done. by apply lookup_insert_ne.
    + case_match; simpl; rewrite ?lookup_insert_ne by done; done.
  - unfold uploadImage. destruct sessionId as [sessionId|]; [|done].
    assert (sessionId ≠ sid) by congruence.
    destruct (if truthy sessionId then sessions srv !! sessionId else None); [|done].
    case_match; [done|]. case_match; simpl.
    + rewrite cleanupSession_other by done. by apply lookup_insert_ne.
    + destruct body as [|filename content|[] errMessage]; simpl;
        rewrite ?lookup_insert_ne by done; done.
  - unfold fetchImage.
    destruct (if truthy sessionId then sessions srv !! sessionId else None); [|done].
    repeat case_match; done.
Qed.

(** ** Connecting the sender *)

(** C8. A connect on a session that is [connected] with a sender seen before
    ([senderLastSeen > 0]) is answered 409 and changes nothing: the whole
    server state, hence every field of the session, is as before. *)
Theorem connect_conflict_unchanged sessionId now nowExp srv session :
  sessions srv !! sessionId = Some session →
  status session = connected →
  senderLastSeen session > 0 →
  connectSender sessionId now nowExp srv
  = (Failure 409 "Session already has an active sender.", srv)
  ∧ sessions (connectSender sessionId now nowExp srv).2 !! sessionId = Some session.
Proof.
  intros Hs Hst Hseen. unfold connectSender. rewrite Hs, Hst.
  rewrite !bool_decide_eq_true_2 by (done || lia). simpl. done.
Qed.

Lemma connectSender_accept sessionId now nowExp srv session :
  sessions srv !! sessionId = Some session →
  ¬ (status session = connected ∧ senderLastSeen session > 0) →
  connectSender sessionId now nowExp srv
  = (SenderConnected sessionId SESSION_TIMEOUT_MS POLLING_INTERVAL_MS,
     store sessionId
           (set_expiresAt (calculateExpiresAt nowExp)
              (set_senderLastSeen now (set_status connected session))) srv).
Proof.
  intros Hs Hfree. unfold connectSender. rewrite Hs.
  destruct (bool_decide (status session ≠ waiting_for_sender)
            && bool_decide (status session = connected)
            && bool_decide (senderLastSeen session > 0)) eqn:E.
  - apply andb_true_iff in E as [E E3]. apply andb_true_iff in E as [_ E2].
    apply bool_decide_eq_true in E2, E3. by destruct Hfree.
  - reflexivity.
Qed.

(** C9. A connect on any existing session that is not [connected] with a
    sender seen before succeeds, whatever the status (in particular from
    [receiver_disconnected] and [sender_disconnected]) and whatever the
    receiver's last-seen time: the status becomes [connected],
    [senderLastSeen] becomes [now] and [expiresAt] becomes the reading of the
    clock plus the session timeout; the other fields are kept. *)
Theorem connect_succeeds sessionId now nowExp srv session :
  sessions srv !! sessionId = Some session →
  ¬ (status session = connected ∧ senderLastSeen session > 0) →
  connectSender sessionId now nowExp srv
  = (SenderConnected sessionId SESSION_TIMEOUT_MS POLLING_INTERVAL_MS,
     store sessionId
           (mkSession connected (receiverLastSeen session) now
                      (nowExp + SESSION_TIMEOUT_MS) (imagePaths session)
                      (pendingImageIds session) (qrUrl session) (qrData session)
                      (createdAt session)) srv).
Proof. intros Hs Hfree. by rewrite (connectSender_accept _ _ _ _ _ Hs Hfree). Qed.

(** ** Polling *)

(** C10. A receiver poll on an existing session whose deadline has not
    passed hands over the whole pending queue and leaves it empty, whatever
    the status of the session. *)
Theorem receiver_poll_drains sessionId now count srv session :
  sessions srv !! sessionId = Some session →
  ¬ (expiresAt session < now) →
  ∃ payload session',
    (pollStatus sessionId (Some "receiver") now count srv).1 = StatusReport payload
    ∧ newImageIds payload = pendingImageIds session
    ∧ sessions (pollStatus sessionId (Some "receiver") now count srv).2 !! sessionId
      = Some session'
    ∧ pendingImageIds session' = [].
Proof.
  intros Hs Hlive. unfold pollStatus. simpl. rewrite Hs.
  rewrite bool_decide_eq_false_2 by (rewrite touch_expiresAt; done).
  rewrite touch_pendingImageIds.
  destruct (pendingImageIds session) as [|i pending] eqn:Hp; simpl.
  - eexists _, _. split; [reflexivity|]. split; [done|].
    split; [apply lookup_insert_eq|]. by rewrite touch_pendingImageIds.
  - eexists _, _. split; [reflexivity|]. split; [done|].
    split; [apply lookup_insert_eq|]. reflexivity.
Qed.

Lemma forgetDeadline_eq sessionId a b :
  disk a = disk b →
  deferred a = deferred b →
  (∀ k, k ≠ sessionId → sessions a !! k = sessions b !! k) →
  set_expiresAt 0 <$> sessions a !! sessionId = set_expiresAt 0 <$> sessions b !! sessionId →
  forgetDeadline sessionId a = forgetDeadline sessionId b.
Proof.
  intros Hd Hq Hother Hsame. unfold forgetDeadline, set_sessions. rewrite Hd, Hq. f_equal.
  apply map_eq. intros k. destruct (decide (k = sessionId)) as [->|Hne].
  - by rewrite !lookup_alter_eq.
  - rewrite !lookup_alter_ne by done. by apply Hother.
Qed.

Lemma forgetDeadline_store sessionId v session srv :
  sessions srv !! sessionId = Some session →
  forgetDeadline sessionId (store sessionId (set_expiresAt v session) srv)
  = forgetDeadline sessionId srv.
Proof.
  intros Hs. apply forgetDeadline_eq; simpl; try done.
  - intros k Hne. by rewrite lookup_insert_ne.
  - by rewrite lookup_insert_eq, Hs.
Qed.

Lemma cleanupSession_store sessionId session srv :
  cleanupSession sessionId (store sessionId session srv)
  = (let srv1 := set_sessions (delete sessionId (sessions srv)) srv in
     let imagePathsToDelete := (map_to_list (imagePaths session)).*2 in
     if bool_decide (0 < length imagePathsToDelete)%nat
     then defer (CleanupFiles sessionId imagePathsToDelete) srv1
     else srv1).
Proof.
  unfold cleanupSession, store, set_sessions. cbn [sessions disk deferred].
  rewrite lookup_insert_eq, delete_insert_eq. reflexivity.
Qed.

(** Equality of two outcomes up to the deadline of the session, by cases on
    the key. *)
Ltac same_but_deadline Hs :=
  split; [reflexivity|];
  apply forgetDeadline_eq;
    cbn [fst snd disk deferred sessions store set_sessions set_disk defer];
  [reflexivity
  |reflexivity
  |intros k Hne; rewrite ?lookup_insert_ne by done; reflexivity
  |rewrite ?lookup_insert_eq, ?Hs; reflexivity].

(** C2 (amended). Only the status poll looks at the deadline.  A poll, as
    receiver or as sender, on a session whose [expiresAt] is before [now] is
    answered 404 and removes the record, as for an absent session.  The
    connect, upload and image routes never read [expiresAt]: whatever the
    deadline of the session, their reply is the same and so is the state
    they leave, but for the deadline of the session itself.  A session is
    removed by nothing but a poll or a run of the sweeper that finds its
    deadline passed, and the upload that finds its receiver silent for more
    than the session timeout. *)
Theorem deadline_checked_by_poll_only sessionId srv session :
  sessions srv !! sessionId = Some session →
  (∀ clientType now count,
     expiresAt session < now →
     clientType = Some "receiver" ∨ clientType = Some "sender" →
     (pollStatus sessionId clientType now count srv).1 = Failure 404 "Session expired."
     ∧ sessions (pollStatus sessionId clientType now count srv).2 !! sessionId = None)
  ∧ (∀ v now nowExp,
       sameButDeadline sessionId
         (connectSender sessionId now nowExp (store sessionId (set_expiresAt v session) srv))
         (connectSender sessionId now nowExp srv))
  ∧ (∀ v now nowExp uuid body,
       sameButDeadline sessionId
         (uploadImage (Some sessionId) now nowExp uuid body
                      (store sessionId (set_expiresAt v session) srv))
         (uploadImage (Some sessionId) now nowExp uuid body srv))
  ∧ (∀ v imageId,
       sameButDeadline sessionId
         (fetchImage sessionId imageId (store sessionId (set_expiresAt v session) srv))
         (fetchImage sessionId imageId srv))
  ∧ (∀ e,
       sessions (step e srv).2 !! sessionId = None →
       (∃ clientType now count,
           e = Serve (PollStatus sessionId clientType now count) ∧ expiresAt session < now)
       ∨ (∃ now, e = Sweep now ∧ expiresAt session < now)
       ∨ (∃ now nowExp uuid body,
             e = Serve (UploadImage (Some sessionId) now nowExp uuid body)
             ∧ status session = connected
             ∧ now > receiverLastSeen session + SESSION_TIMEOUT_MS)).
Proof.
  intros Hs. split; [|split; [|split; [|split]]].
  - intros clientType now count Hexp Hct. unfold pollStatus. rewrite Hs.
    destruct Hct as [-> | ->]; simpl;
      rewrite bool_decide_eq_true_2 by (rewrite touch_expiresAt; done); simpl;
      (split; [done|apply cleanupSession_gone]).
  - intros v now nowExp. unfold sameButDeadline, connectSender.
    cbn [store set_sessions sessions]. rewrite lookup_insert_eq, Hs.
    cbn [status senderLastSeen set_expiresAt].
    destruct (bool_decide (status session ≠ waiting_for_sender)
              && bool_decide (status session = connected)
              && bool_decide (senderLastSeen session > 0)); cbn [fst snd];
      same_but_deadline Hs.
  - intros v now nowExp uuid body. unfold sameButDeadline, uploadImage.
    cbn [store set_sessions sessions].
    destruct (truthy sessionId); [|same_but_deadline Hs].
    rewrite lookup_insert_eq, Hs. cbn [status receiverLastSeen set_expiresAt].
    destruct (bool_decide (status session ≠ connected)); cbn [fst snd];
      [same_but_deadline Hs|].
    destruct (bool_decide (now > receiverLastSeen session + SESSION_TIMEOUT_MS));
      cbn [fst snd].
    { split; [reflexivity|]. f_equal.
      change (mkServer (<[sessionId:=set_expiresAt v session]> (sessions srv))
                       (disk srv) (deferred srv))
        with (store sessionId (set_expiresAt v session) srv).
      rewrite !cleanupSession_store. cbn [store set_sessions sessions disk deferred].
      by rewrite delete_insert_eq. }
    destruct body as [|filename content|[] errMessage]; cbn [fst snd];
      same_but_deadline Hs.
  - intros v imageId. unfold sameButDeadline, fetchImage.
    cbn [store set_sessions sessions].
    destruct (truthy sessionId); [|same_but_deadline Hs].
    rewrite lookup_insert_eq, Hs. cbn [imagePaths set_expiresAt].
    destruct (imagePaths session !! imageId) as [imagePath|]; [|same_but_deadline Hs].
    destruct (truthy imagePath); cbn [negb]; [|same_but_deadline Hs].
    change (disk (store sessionId (set_expiresAt v session) srv)) with (disk srv).
    destruct (fs_readFile imagePath (disk srv)) as [[]|imageBuffer]; cbn [fst snd];
      same_but_deadline Hs.
  - intros e Hgone. destruct e as [r|now|n].
    + rewrite step_serve_state in Hgone.
      destruct (decide (target r = Some sessionId)) as [Ht|Ht].
      2: { rewrite handle_frame, Hs in Hgone by done. done. }
      destruct r as [sid now nowExp fullUrl qr|sid now nowExp
                    |sid clientType now count|sid now nowExp uuid body
                    |sid imageId]; simpl in Ht; simplify_eq; cbn [handle] in Hgone.
      * unfold requestPairing in Hgone. destruct qr; cbn [snd] in Hgone.
        -- simpl in Hgone. by rewrite lookup_insert_eq in Hgone.
        -- by rewrite Hs in Hgone.
      * unfold connectSender in Hgone. rewrite Hs in Hgone.
        destruct (_ && _) in Hgone; cbn [snd] in Hgone.
        -- by rewrite Hs in Hgone.
        -- simpl in Hgone. by rewrite lookup_insert_eq in Hgone.
      * left. exists clientType, now, count. split; [done|].
        unfold pollStatus in Hgone.
        destruct (negb (bool_decide (clientType = Some "receiver"))
                  && negb (bool_decide (clientType = Some "sender"))).
        { cbn [snd] in Hgone. by rewrite Hs in Hgone. }
        rewrite Hs in Hgone. cbn zeta in Hgone.
        destruct (bool_decide (expiresAt (touch _ now session) < now)) eqn:Hexp.
        { apply bool_decide_eq_true in Hexp. by rewrite touch_expiresAt in Hexp. }
        cbn [snd] in Hgone.
        destruct (_ && bool_decide (0 < length _)%nat) in Hgone; simpl in Hgone;
          by rewrite lookup_insert_eq in Hgone.
      * right. right. exists now, nowExp, uuid, body. split; [done|].
        unfold uploadImage in Hgone.
        destruct (truthy sessionId); [|cbn [snd] in Hgone; by rewrite Hs in Hgone].
        rewrite Hs in Hgone.
        destruct (bool_decide (status session ≠ connected)) eqn:Hst;
          [cbn [snd] in Hgone; by rewrite Hs in Hgone|].
        apply bool_decide_eq_false in Hst. apply dec_stable in Hst.
        destruct (bool_decide (now > receiverLastSeen session + SESSION_TIMEOUT_MS)) eqn:Hstale.
        { apply bool_decide_eq_true in Hstale. done. }
        destruct body as [|filename content|[] errMessage]; simpl in Hgone;
          by rewrite lookup_insert_eq in Hgone.
      * unfold fetchImage in Hgone.
        destruct (truthy sessionId); [|cbn [snd] in Hgone; by rewrite Hs in Hgone].
        rewrite Hs in Hgone.
        destruct (imagePaths session !! imageId) as [imagePath|];
          [|cbn [snd] in Hgone; by rewrite Hs in Hgone].
        destruct (negb (truthy imagePath)); [cbn [snd] in Hgone; by rewrite Hs in Hgone|].
        destruct (fs_readFile imagePath (disk srv)) as [[]|]; simpl in Hgone;
          by rewrite Hs in Hgone.
    + right. left. exists now. split; [done|]. simpl in Hgone.
      rewrite sweep_lookup, Hs in Hgone. by case_bool_decide.
    + simpl in Hgone. destruct (runDeferred_sessions n srv sessionId) as [removed Hr].
      rewrite Hr, Hs in Hgone. done.
Qed.

(** C3 (amended). [expiresAt] becomes the reading of the clock plus the
    session timeout when a session is created, on every successful connect
    and on every upload that passes the session, status and staleness checks;
    the clock being read after the time of the event was taken, the deadline
    is then at least the time of the event plus the session timeout.  A
    status poll never writes [expiresAt], so a successful poll leaves the
    deadline where it was. *)
Theorem deadline_extended_by_connect_and_upload sessionId now nowExp srv :
  now ≤ nowExp →
  (∀ fullUrl qr,
     ∃ session',
       sessions (requestPairing sessionId now nowExp fullUrl (Some qr) srv).2 !! sessionId
       = Some session'
       ∧ expiresAt session' = nowExp + SESSION_TIMEOUT_MS
       ∧ createdAt session' = now
       ∧ createdAt session' + SESSION_TIMEOUT_MS ≤ expiresAt session')
  ∧ (∀ session,
       sessions srv !! sessionId = Some session →
       (httpCode (connectSender sessionId now nowExp srv).1 = 200 →
        ∃ session',
          sessions (connectSender sessionId now nowExp srv).2 !! sessionId = Some session'
          ∧ expiresAt session' = nowExp + SESSION_TIMEOUT_MS
          ∧ senderLastSeen session' = now
          ∧ senderLastSeen session' + SESSION_TIMEOUT_MS ≤ expiresAt session')
       ∧ (∀ uuid body,
            sessionId ≠ "" → status session = connected →
            ¬ now > receiverLastSeen session + SESSION_TIMEOUT_MS →
            ∃ session',
              sessions (uploadImage (Some sessionId) now nowExp uuid body srv).2 !! sessionId
              = Some session'
              ∧ expiresAt session' = nowExp + SESSION_TIMEOUT_MS
              ∧ now + SESSION_TIMEOUT_MS ≤ expiresAt session')
       ∧ (∀ clientType count,
            httpCode (pollStatus sessionId clientType now count srv).1 = 200 →
            ∃ session',
              sessions (pollStatus sessionId clientType now count srv).2 !! sessionId
              = Some session'
              ∧ expiresAt session' = expiresAt session)).
Proof.
  intros Hclock. split.
  { intros fullUrl qr. unfold requestPairing, store, calculateExpiresAt. simpl.
    rewrite lookup_insert_eq. eexists. split; [reflexivity|]. simpl. lia. }
  intros session Hs. split; [|split].
  - unfold connectSender, calculateExpiresAt. rewrite Hs. case_match; simpl; [done|].
    intros _. rewrite lookup_insert_eq. eexists. split; [reflexivity|]. simpl. lia.
  - intros uuid body Hsid Hst Hfresh. unfold uploadImage, calculateExpiresAt.
    rewrite (truthy_true _ Hsid), Hs.
    rewrite bool_decide_eq_false_2 by (intros H; by apply H).
    rewrite bool_decide_eq_false_2 by done.
    destruct body as [|filename content|[] errMessage]; simpl;
      rewrite lookup_insert_eq; (eexists; split; [reflexivity|]); simpl; lia.
  - intros clientType count. unfold pollStatus.
    destruct (negb (bool_decide (clientType = Some "receiver"))
              && negb (bool_decide (clientType = Some "sender"))); [done|].
    rewrite Hs.
    destruct (bool_decide (expiresAt (touch _ now session) < now)); [done|].
    intros _. simpl.
    destruct (_ && bool_decide (0 < length _)%nat); simpl;
      rewrite lookup_insert_eq; (eexists; split; [reflexivity|]); simpl;
      by rewrite ?touch_expiresAt.
Qed.

(** ** Uploading *)

(** C5 (amended). An upload on a [connected] session whose receiver was last
    seen more than the session timeout ago is refused and destroys the
    session; an upload on a session that is not [connected] (for instance one
    that a sender poll has marked [receiver_disconnected]) is refused and
    leaves the session store and the upload directory as they were. *)
Theorem upload_stale_receiver sessionId now nowExp uuid body srv session :
  sessionId ≠ "" →
  sessions srv !! sessionId = Some session →
  (status session = connected →
   now > receiverLastSeen session + SESSION_TIMEOUT_MS →
   uploadImage (Some sessionId) now nowExp uuid body srv
   = (Failure 400 "Receiver partner disconnected.",
      cleanupSession sessionId
        (store sessionId (set_status receiver_disconnected session) srv))
   ∧ sessions (uploadImage (Some sessionId) now nowExp uuid body srv).2 !! sessionId = None)
  ∧ (status session ≠ connected →
     sessions (uploadImage (Some sessionId) now nowExp uuid body srv).2 = sessions srv
     ∧ disk (uploadImage (Some sessionId) now nowExp uuid body srv).2 = disk srv
     ∧ ∃ message,
         (uploadImage (Some sessionId) now nowExp uuid body srv).1 = Failure 400 message).
Proof.
  intros Hsid Hs. unfold uploadImage. rewrite (truthy_true _ Hsid), Hs. split.
  - intros Hst Hstale.
    rewrite bool_decide_eq_false_2 by (intros H; by apply H).
    rewrite bool_decide_eq_true_2 by done. split; [done|]. simpl.
    apply cleanupSession_gone.
  - intros Hst. rewrite bool_decide_eq_true_2 by done. simpl. eauto.
Qed.

(** ** Staleness *)

Lemma without_image_status removed s : status (without_image removed s) = status s.
Proof. by destruct removed. Qed.

(** Only the connect route writes [connected]. *)
Lemma handle_status_connected r srv sid s' :
  (∀ now nowExp, r ≠ ConnectSender sid now nowExp) →
  sessions (handle r srv).2 !! sid = Some s' →
  status s' = connected →
  ∃ s, sessions srv !! sid = Some s ∧ status s = connected.
Proof.
  intros Hr. destruct (decide (target r = Some sid)) as [Ht|Ht].
  2: { rewrite handle_frame by done. eauto. }
  destruct r as [sessionId now nowExp fullUrl qr|sessionId now nowExp
                |sessionId clientType now count|sessionId now nowExp uuid body
                |sessionId imageId]; simpl in Ht; simplify_eq; simpl.
  - unfold requestPairing. destruct qr; simpl; [|unchanged].
    rewrite lookup_insert_eq. intros [= <-]. done.
  - by destruct (Hr now nowExp).
  - unfold pollStatus. case_match; [unchanged|].
    destruct (sessions srv !! sid) as [session|] eqn:E; [|unchanged].
    case_match; simpl.
    { by rewrite cleanupSession_gone. }
    case_match; simpl; rewrite lookup_insert_eq; intros [= <-]; simpl; intros Hc;
      apply touch_status_connected in Hc; eauto.
  - unfold uploadImage. destruct (truthy sid); [|unchanged].
    destruct (sessions srv !! sid) as [session|] eqn:E; [|unchanged].
    case_bool_decide as Hst; [unchanged|].
    case_bool_decide; simpl.
    { by rewrite cleanupSession_gone. }
    destruct body as [|filename content|[] errMessage]; simpl;
      rewrite lookup_insert_eq; intros [= <-]; simpl; eauto.
  - unfold fetchImage. destruct (truthy sid); [|unchanged].
    destruct (sessions srv !! sid) as [session|] eqn:E; [|unchanged].
    repeat case_match; unchanged.
Qed.

Lemma step_status_connected e srv sid s' :
  (∀ now nowExp, e ≠ Serve (ConnectSender sid now nowExp)) →
  sessions (step e srv).2 !! sid = Some s' →
  status s' = connected →
  ∃ s, sessions srv !! sid = Some s ∧ status s = connected.
Proof.
  intros He. destruct e as [r|now|n].
  - rewrite step_serve_state. apply handle_status_connected.
    intros now nowExp ->. by apply (He now nowExp).
  - simpl. rewrite sweep_lookup. destruct (sessions srv !! sid) as [s|]; [|done].
    case_bool_decide; [done|]. intros [= <-]. eauto.
  - simpl. destruct (runDeferred_sessions n srv sid) as [removed ->].
    destruct (sessions srv !! sid) as [s|]; [|done]. simpl. intros [= <-].
    rewrite without_image_status. eauto.
Qed.

(** C6 (amended). Once a session is [sender_disconnected] or
    [receiver_disconnected], no execution without a connect request for it
    brings it back to [connected]: polls of either role, uploads, image
    fetches, sweeps and deferred cleanup leave it disconnected (or remove
    it).  A connect request, which only the sender sends, does restore
    [connected], also when the stale side is the receiver. *)
Theorem disconnected_until_connect tr srv sessionId session :
  sessions srv !! sessionId = Some session →
  status session = sender_disconnected ∨ status session = receiver_disconnected →
  Forall (λ e, ∀ now nowExp, e ≠ Serve (ConnectSender sessionId now nowExp)) tr →
  (∀ s', sessions (exec tr srv).2 !! sessionId = Some s' → status s' ≠ connected)
  ∧ (∀ now nowExp,
       status <$> sessions (connectSender sessionId now nowExp srv).2 !! sessionId
       = Some connected).
Proof.
  intros Hs Hst Htr. split.
  - assert (∀ s, sessions srv !! sessionId = Some s → status s ≠ connected) as Hinv.
    { intros s. rewrite Hs. intros [= <-]. destruct Hst as [-> | ->]; done. }
    clear Hs Hst. revert srv Hinv.
    induction Htr as [|e tr He Htr IH]; intros srv Hinv; [exact Hinv|].
    rewrite exec_cons. cbn [snd]. apply IH.
    intros s' Hs' Hc.
    destruct (step_status_connected e srv sessionId s' He Hs' Hc) as (s & Hs & Hcs).
    by apply (Hinv s).
  - intros now nowExp. rewrite connectSender_accept with (session := session); [|done|].
    + simpl. rewrite lookup_insert_eq. reflexivity.
    + intros [Hc _]. destruct Hst as [H | H]; rewrite H in Hc; done.
Qed.

(** ** The pending queue *)

Lemma without_image_pendingImageIds removed s :
  pendingImageIds (without_image removed s) = pendingImageIds s.
Proof. by destruct removed. Qed.

Lemma uploadedTo_cons sid x log :
  uploadedTo sid (x :: log) = uploadedTo sid [x] ++ uploadedTo sid log.
Proof.
  destruct x as [e reply].
  destruct e as [r|now|n]; [|reflexivity..].
  destruct r as [| | |sessionId now nowExp uuid body|]; try reflexivity.
  destruct sessionId as [s|]; [|reflexivity].
  destruct reply as [reply|]; [|reflexivity].
  destruct reply; try reflexivity.
  simpl. case_bool_decide; [|reflexivity]. destruct body; reflexivity.
Qed.

Lemma uploadedTo_other sid r reply :
  target r ≠ Some sid → uploadedTo sid [(Serve r, reply)] = [].
Proof.
  intros Ht. destruct r as [| | |sessionId now nowExp uuid body|]; try reflexivity.
  destruct sessionId as [s|]; [|reflexivity].
  destruct reply as [reply|]; [|reflexivity].
  destruct reply; try reflexivity.
  simpl. case_bool_decide; [|reflexivity]. simpl in Ht. congruence.
Qed.

Lemma uploadedTo_failure sid e code message :
  uploadedTo sid [(e, Some (Failure code message))] = [].
Proof.
  destruct e as [r|now|n]; [|reflexivity..].
  destruct r as [| | |sessionId now nowExp uuid body|]; try reflexivity.
  destruct sessionId; reflexivity.
Qed.

Lemma handle_pending r srv sid acc :
  betweenReceiverPolls sid (Serve r) →
  (∀ s, sessions srv !! sid = Some s → pendingImageIds s = acc) →
  ∀ s', sessions (handle r srv).2 !! sid = Some s' →
        pendingImageIds s' = acc ++ uploadedTo sid [(Serve r, Some (handle r srv).1)].
Proof.
  intros Hq Hinv s'. destruct (decide (target r = Some sid)) as [Ht|Ht].
  2: { rewrite handle_frame, uploadedTo_other, app_nil_r by done. apply Hinv. }
  destruct r as [sessionId now nowExp fullUrl qr|sessionId now nowExp
                |sessionId clientType now count|sessionId now nowExp uuid body
                |sessionId imageId]; simpl in Ht; simplify_eq.
  - by destruct Hq.
  - simpl. rewrite app_nil_r. unfold connectSender.
    destruct (sessions srv !! sid) as [session|] eqn:E; [|unchanged].
    case_match; [unchanged|]. simpl. rewrite lookup_insert_eq. intros [= <-]. simpl. eauto.
  - simpl. rewrite app_nil_r. unfold pollStatus.
    destruct (bool_decide (clientType = Some "receiver")) eqn:Hrole.
    { apply bool_decide_eq_true in Hrole. destruct Hq. done. }
    destruct (negb false && negb (bool_decide (clientType = Some "sender"))); [unchanged|].
    destruct (sessions srv !! sid) as [session|] eqn:E; [|unchanged].
    case_match; simpl.
    { by rewrite cleanupSession_gone. }
    rewrite lookup_insert_eq. intros [= <-]. rewrite touch_pendingImageIds. eauto.
  - cbn [handle]. unfold uploadImage.
    destruct (truthy sid); [|simpl; rewrite app_nil_r; unchanged].
    destruct (sessions srv !! sid) as [session|] eqn:E;
      [|simpl; rewrite app_nil_r; unchanged].
    case_bool_decide; [simpl; rewrite app_nil_r; unchanged|].
    case_bool_decide.
    { cbn [fst snd]. by rewrite cleanupSession_gone. }
    destruct body as [|filename content|[] errMessage]; simpl;
      rewrite ?app_nil_r; rewrite lookup_insert_eq; intros [= <-]; simpl; eauto.
    rewrite bool_decide_eq_true_2 by done. f_equal. eauto.
  - simpl. rewrite app_nil_r. unfold fetchImage. destruct (truthy sid); [|unchanged].
    destruct (sessions srv !! sid) as [session|] eqn:E; [|unchanged].
    repeat case_match; unchanged.
Qed.

Lemma step_pending e srv sid acc :
  betweenReceiverPolls sid e →
  (∀ s, sessions srv !! sid = Some s → pendingImageIds s = acc) →
  ∀ s', sessions (step e srv).2 !! sid = Some s' →
        pendingImageIds s' = acc ++ uploadedTo sid [(e, (step e srv).1)].
Proof.
  intros Hq Hinv s'. destruct e as [r|now|n].
  - rewrite step_serve_state, step_serve_reply. by apply handle_pending.
  - simpl. rewrite app_nil_r, sweep_lookup.
    destruct (sessions srv !! sid) as [s|] eqn:E; [|done].
    case_bool_decide; [done|]. intros [= <-]. eauto.
  - simpl. rewrite app_nil_r. destruct (runDeferred_sessions n srv sid) as [removed ->].
    destruct (sessions srv !! sid) as [s|] eqn:E; [|done]. simpl. intros [= <-].
    rewrite without_image_pendingImageIds. eauto.
Qed.

Lemma exec_pending tr srv sid acc :
  Forall (betweenReceiverPolls sid) tr →
  (∀ s, sessions srv !! sid = Some s → pendingImageIds s = acc) →
  ∀ s', sessions (exec tr srv).2 !! sid = Some s' →
        pendingImageIds s' = acc ++ uploadedTo sid (exec tr srv).1.
Proof.
  intros Htr. revert srv acc.
  induction Htr as [|e tr He Htr IH]; intros srv acc Hinv s'.
  - simpl. rewrite app_nil_r. apply Hinv.
  - rewrite exec_cons. cbn [fst snd]. rewrite uploadedTo_cons, app_assoc.
    apply IH. by apply step_pending.
Qed.

(** What a successful receiver poll returns and leaves behind. *)
Lemma receiver_poll_report sid now count srv payload :
  (pollStatus sid (Some "receiver") now count srv).1 = StatusReport payload →
  (∃ s, sessions srv !! sid = Some s ∧ newImageIds payload = pendingImageIds s)
  ∧ ∀ s', sessions (pollStatus sid (Some "receiver") now count srv).2 !! sid = Some s' →
          pendingImageIds s' = [].
Proof.
  unfold pollStatus. simpl.
  destruct (sessions srv !! sid) as [session|] eqn:E; [|done].
  case_bool_decide; [done|]. simpl. rewrite touch_pendingImageIds.
  destruct (pendingImageIds session) as [|i pending] eqn:Hp; simpl.
  - intros [= <-]. split; [eauto|]. rewrite lookup_insert_eq. intros s' [= <-].
    by rewrite touch_pendingImageIds.
  - intros [= <-]. split; [eauto|]. rewrite lookup_insert_eq. by intros s' [= <-].
Qed.

(** C7. The identifiers that a receiver poll returns are exactly those of
    the uploads accepted for the session since the previous receiver poll, in
    the order of their acceptance; with no upload accepted in between, the
    poll returns the empty list. *)
Theorem queue_drain_exact sessionId now0 count0 srv payload0 tr now count payload :
  (pollStatus sessionId (Some "receiver") now0 count0 srv).1 = StatusReport payload0 →
  Forall (betweenReceiverPolls sessionId) tr →
  (pollStatus sessionId (Some "receiver") now count
     (exec tr (pollStatus sessionId (Some "receiver") now0 count0 srv).2).2).1
  = StatusReport payload →
  newImageIds payload
  = uploadedTo sessionId (exec tr (pollStatus sessionId (Some "receiver") now0 count0 srv).2).1
  ∧ (uploadedTo sessionId
       (exec tr (pollStatus sessionId (Some "receiver") now0 count0 srv).2).1 = [] →
     newImageIds payload = []).
Proof.
  intros H0 Htr H1.
  apply receiver_poll_report in H0 as [_ Hempty].
  apply receiver_poll_report in H1 as [(s & Hs & ->) _].
  pose proof (exec_pending tr _ sessionId [] Htr Hempty s Hs) as Hq.
  simpl in Hq. split; [done|]. by intros <-.
Qed.

(** ** Destroying a session *)

Lemma unlinkQuietly_disk imagePath srv :
  disk (unlinkQuietly imagePath srv) = delete imagePath (disk srv).
Proof.
  unfold unlinkQuietly, fs_unlink. destruct (disk srv !! imagePath) eqn:E; [done|].
  symmetry. by apply delete_id.
Qed.

Lemma unlinkQuietly_sessions imagePath srv :
  sessions (unlinkQuietly imagePath srv) = sessions srv.
Proof. unfold unlinkQuietly. by destruct (fs_unlink imagePath (disk srv)) as [[]|d]. Qed.

Lemma unlinkQuietly_deferred imagePath srv :
  deferred (unlinkQuietly imagePath srv) = deferred srv.
Proof. unfold unlinkQuietly. by destruct (fs_unlink imagePath (disk srv)) as [[]|d]. Qed.

(** The unlink loop removes the listed files and no other, whether or not
    they exist. *)
Lemma unlinkAll_lookup paths srv p :
  disk (unlinkAll paths srv) !! p = if decide (p ∈ paths) then None else disk srv !! p.
Proof.
  unfold unlinkAll. revert srv. induction paths as [|q paths IH]; intros srv; cbn [foldl].
  - rewrite decide_False; [done|]. apply not_elem_of_nil.
  - rewrite IH, unlinkQuietly_disk. destruct (decide (p ∈ paths)) as [Hin|Hin].
    + rewrite decide_True; [done|]. by right.
    + destruct (decide (q = p)) as [->|Hne].
      * rewrite lookup_delete_eq, decide_True; [done|]. by left.
      * rewrite lookup_delete_ne by done. rewrite decide_False; [done|].
        rewrite elem_of_cons. intros [->|?]; done.
Qed.

(** The deferred loop, resumed once per file, does what [unlinkAll] does. *)
Lemma cleanup_task_runs sid paths srv n :
  deferred srv !! n = Some (CleanupFiles sid paths) →
  disk (exec (replicate (length paths) (Resume n)) srv).2 = disk (unlinkAll paths srv)
  ∧ sessions (exec (replicate (length paths) (Resume n)) srv).2 = sessions srv.
Proof.
  revert srv. induction paths as [|p rest IH]; intros srv Hn; [done|].
  cbn [length replicate]. rewrite exec_cons. cbn [fst snd step].
  unfold unlinkAll. cbn [foldl]. fold (unlinkAll rest (unlinkQuietly p srv)).
  assert (disk (runDeferred n srv) = disk (unlinkQuietly p srv)
          ∧ sessions (runDeferred n srv) = sessions srv
          ∧ (rest ≠ [] → deferred (runDeferred n srv) !! n = Some (CleanupFiles sid rest)))
    as (Hd & Hs & Hk).
  { unfold runDeferred. rewrite Hn. simpl. rewrite unlinkQuietly_sessions.
    split; [done|]. split; [done|]. intros Hrest. destruct rest; [done|].
    rewrite unlinkQuietly_deferred. apply list_lookup_insert_eq.
    by eapply lookup_lt_Some. }
  destruct rest as [|q rest].
  - simpl. unfold unlinkAll. simpl. done.
  - destruct (IH (runDeferred n srv)) as [IHd IHs]; [by apply Hk|].
    rewrite IHd, IHs. split; [|done].
    apply map_eq. intros x. rewrite !unlinkAll_lookup. by rewrite Hd.
Qed.

(** A request that removes a session has deleted no file; the unlink loop
    for the files of the session is left behind. *)
Lemma handle_destroys r srv sid session :
  sessions srv !! sid = Some session →
  sessions (handle r srv).2 !! sid = None →
  disk (handle r srv).2 = disk srv
  ∧ (imagePaths session ≠ ∅ →
     CleanupFiles sid (map_to_list (imagePaths session)).*2 ∈ deferred (handle r srv).2).
Proof.
  intros Hs. destruct (decide (target r = Some sid)) as [Ht|Ht].
  2: { rewrite handle_frame by done. congruence. }
  destruct r as [sessionId now nowExp fullUrl qr|sessionId now nowExp
                |sessionId clientType now count|sessionId now nowExp uuid body
                |sessionId imageId]; simpl in Ht; simplify_eq; simpl.
  - unfold requestPairing. destruct qr; simpl; [|congruence].
    by rewrite lookup_insert_eq.
  - unfold connectSender. rewrite Hs. case_match; simpl; [congruence|].
    by rewrite lookup_insert_eq.
  - unfold pollStatus. case_match; [simpl; congruence|]. rewrite Hs.
    case_match; simpl.
    + intros _. rewrite cleanupSession_disk. split; [done|]. intros Hne.
      erewrite cleanupSession_deferred.
      * rewrite touch_imagePaths. apply elem_of_app. right. by apply list_elem_of_singleton.
      * simpl. apply lookup_insert_eq.
      * by rewrite touch_imagePaths.
    + case_match; simpl; by rewrite lookup_insert_eq.
  - unfold uploadImage. destruct (truthy sid); [|simpl; congruence]. rewrite Hs.
    case_bool_decide; [simpl; congruence|].
    case_bool_decide; simpl.
    + intros _. rewrite cleanupSession_disk. split; [done|]. intros Hne.
      rewrite (cleanupSession_deferred sid _ (set_status receiver_disconnected session)).
      * simpl. apply elem_of_app. right. by apply list_elem_of_singleton.
      * simpl. apply lookup_insert_eq.
      * done.
    + destruct body as [|filename content|[] errMessage]; simpl;
        by rewrite lookup_insert_eq.
  - unfold fetchImage. destruct (truthy sid); [|simpl; congruence]. rewrite Hs.
    repeat case_match; simpl; congruence.
Qed.

(** C4 (amended). Whenever a step destroys a session (a poll that finds it
    expired, the upload that finds its receiver stale, a run of the sweeper),
    the record is removed first and no file has been deleted at that point:
    the files of its image map are left to a deferred unlink loop.  Once that
    loop has taken its turns, every file the map referred to is absent,
    whether or not it still existed. *)
Theorem destroy_record_then_files e srv sessionId session :
  sessions srv !! sessionId = Some session →
  sessions (step e srv).2 !! sessionId = None →
  disk (step e srv).2 = disk srv
  ∧ (imagePaths session ≠ ∅ →
     CleanupFiles sessionId (map_to_list (imagePaths session)).*2
     ∈ deferred (step e srv).2)
  ∧ (∀ srv' n imageId imagePath,
       deferred srv' !! n
       = Some (CleanupFiles sessionId (map_to_list (imagePaths session)).*2) →
       imagePaths session !! imageId = Some imagePath →
       disk (exec (replicate (size (imagePaths session)) (Resume n)) srv').2 !! imagePath
       = None).
Proof.
  intros Hs Hgone.
  assert (disk (step e srv).2 = disk srv
          ∧ (imagePaths session ≠ ∅ →
             CleanupFiles sessionId (map_to_list (imagePaths session)).*2
             ∈ deferred (step e srv).2)) as [Hd Ht].
  { destruct e as [r|now|n].
    - rewrite step_serve_state in *. by apply handle_destroys.
    - simpl in *. unfold runExpiredSessionCleanup in *. split.
      + apply sweep_fold_disk.
      + by apply sweep_fold_deferred.
    - simpl in Hgone. destruct (runDeferred_sessions n srv sessionId) as [removed Hr].
      rewrite Hr, Hs in Hgone. done. }
  split; [done|]. split; [done|].
  intros srv' n imageId imagePath Hn Hi.
  destruct (cleanup_task_runs _ _ _ _ Hn) as [Hdisk _].
  rewrite length_fmap, length_map_to_list in Hdisk. rewrite Hdisk, unlinkAll_lookup.
  rewrite decide_True; [done|].
  apply list_elem_of_fmap. exists (imageId, imagePath). split; [done|].
  by apply elem_of_map_to_list.
Qed.

(** ** Delivering an image *)

Lemma delete_last {A} (l : list A) (x : A) : delete (length l) (l ++ [x]) = l.
Proof. induction l as [|y l IH]; [done|]. simpl. by rewrite IH. Qed.

(** What a successful fetch has found and what it leaves behind. *)
Lemma fetchImage_delivers sid iid srv contentType body :
  (fetchImage sid iid srv).1 = ImageBytes contentType body →
  ∃ session imagePath,
    sessions srv !! sid = Some session
    ∧ imagePaths session !! iid = Some imagePath
    ∧ truthy imagePath = true
    ∧ disk srv !! imagePath = Some body
    ∧ (fetchImage sid iid srv).2 = defer (PostSendCleanup sid iid imagePath) srv.
Proof.
  unfold fetchImage. destruct (truthy sid); [|done].
  destruct (sessions srv !! sid) as [session|]; [|done].
  destruct (imagePaths session !! iid) as [imagePath|] eqn:Hi; [|done].
  destruct (truthy imagePath) eqn:Hp; [|done]. simpl. unfold fs_readFile.
  destruct (disk srv !! imagePath) as [content|] eqn:Hd; [|done]. simpl.
  intros [= _ <-]. eauto 10.
Qed.

(** Without a usable entry for the identifier, the fetch is answered 404. *)
Lemma fetchImage_not_found sid iid srv :
  (∀ s, sessions srv !! sid = Some s → truthyProp (imagePaths s !! iid) = false) →
  httpCode (fetchImage sid iid srv).1 = 404.
Proof.
  intros Hinv. unfold fetchImage. destruct (truthy sid); [|done].
  destruct (sessions srv !! sid) as [session|]; [|done].
  specialize (Hinv session eq_refl).
  destruct (imagePaths session !! iid) as [imagePath|]; [|done].
  simpl in Hinv. by rewrite Hinv.
Qed.

Lemma handle_entry r srv sid iid :
  generatedImageId r ≠ Some iid →
  (∀ s, sessions srv !! sid = Some s → truthyProp (imagePaths s !! iid) = false) →
  ∀ s', sessions (handle r srv).2 !! sid = Some s' →
        truthyProp (imagePaths s' !! iid) = false.
Proof.
  intros Hid Hinv s'. destruct (decide (target r = Some sid)) as [Ht|Ht].
  2: { rewrite handle_frame by done. apply Hinv. }
  destruct r as [sessionId now nowExp fullUrl qr|sessionId now nowExp
                |sessionId clientType now count|sessionId now nowExp uuid body
                |sessionId imageId]; simpl in Ht; simplify_eq; simpl.
  - unfold requestPairing. destruct qr; simpl; [|apply Hinv].
    rewrite lookup_insert_eq. by intros [= <-].
  - unfold connectSender.
    destruct (sessions srv !! sid) as [session|] eqn:E; [|unchanged].
    case_match; [unchanged|]. simpl. rewrite lookup_insert_eq. intros [= <-]. simpl. eauto.
  - unfold pollStatus. case_match; [unchanged|].
    destruct (sessions srv !! sid) as [session|] eqn:E; [|unchanged].
    case_match; simpl.
    { by rewrite cleanupSession_gone. }
    case_match; simpl; rewrite lookup_insert_eq; intros [= <-]; simpl;
      rewrite touch_imagePaths; eauto.
  - unfold uploadImage. destruct (truthy sid); [|unchanged].
    destruct (sessions srv !! sid) as [session|] eqn:E; [|unchanged].
    case_bool_decide; [unchanged|].
    case_bool_decide; simpl.
    { by rewrite cleanupSession_gone. }
    destruct body as [|filename content|[] errMessage]; simpl;
      rewrite lookup_insert_eq; intros [= <-]; simpl; eauto.
    rewrite lookup_insert_ne; [eauto|]. simpl in Hid. congruence.
  - unfold fetchImage. destruct (truthy sid); [|unchanged].
    destruct (sessions srv !! sid) as [session|] eqn:E; [|unchanged].
    repeat case_match; unchanged.
Qed.

Lemma step_entry e srv sid iid :
  doesNotUpload iid e →
  (∀ s, sessions srv !! sid = Some s → truthyProp (imagePaths s !! iid) = false) →
  ∀ s', sessions (step e srv).2 !! sid = Some s' →
        truthyProp (imagePaths s' !! iid) = false.
Proof.
  intros He Hinv s'. destruct e as [r|now|n].
  - rewrite step_serve_state. by apply handle_entry.
  - simpl. rewrite sweep_lookup. destruct (sessions srv !! sid) as [s|] eqn:E; [|done].
    case_bool_decide; [done|]. intros [= <-]. eauto.
  - simpl. destruct (runDeferred_sessions n srv sid) as [removed ->].
    destruct (sessions srv !! sid) as [s|] eqn:E; [|done]. simpl. intros [= <-].
    destruct removed as [i|]; simpl; [|eauto].
    destruct (decide (i = iid)) as [->|Hne].
    + by rewrite lookup_delete_eq.
    + rewrite lookup_delete_ne by done. eauto.
Qed.

Lemma exec_entry tr srv sid iid :
  Forall (doesNotUpload iid) tr →
  (∀ s, sessions srv !! sid = Some s → truthyProp (imagePaths s !! iid) = false) →
  ∀ s', sessions (exec tr srv).2 !! sid = Some s' →
        truthyProp (imagePaths s' !! iid) = false.
Proof.
  intros Htr. revert srv. induction Htr as [|e tr He Htr IH]; intros srv Hinv; [exact Hinv|].
  rewrite exec_cons. cbn [snd]. apply IH. by apply step_entry.
Qed.

(** The entry of an identifier changes only through an upload that makes
    the identifier, or by being removed. *)
Lemma handle_entry_kept (Q : option string → Prop) r srv sid iid :
  Q None →
  generatedImageId r ≠ Some iid →
  (∀ s, sessions srv !! sid = Some s → Q (imagePaths s !! iid)) →
  ∀ s', sessions (handle r srv).2 !! sid = Some s' → Q (imagePaths s' !! iid).
Proof.
  intros HQ Hid Hinv s'. destruct (decide (target r = Some sid)) as [Ht|Ht].
  2: { rewrite handle_frame by done. apply Hinv. }
  destruct r as [sessionId now nowExp fullUrl qr|sessionId now nowExp
                |sessionId clientType now count|sessionId now nowExp uuid body
                |sessionId imageId]; simpl in Ht; simplify_eq; simpl.
  - unfold requestPairing. destruct qr; simpl; [|apply Hinv].
    rewrite lookup_insert_eq. intros [= <-]. simpl. by rewrite lookup_empty.
  - unfold connectSender.
    destruct (sessions srv !! sid) as [session|] eqn:E; [|unchanged].
    case_match; [unchanged|]. simpl. rewrite lookup_insert_eq. intros [= <-]. simpl. eauto.
  - unfold pollStatus. case_match; [unchanged|].
    destruct (sessions srv !! sid) as [session|] eqn:E; [|unchanged].
    case_match; simpl.
    { by rewrite cleanupSession_gone. }
    case_match; simpl; rewrite lookup_insert_eq; intros [= <-]; simpl;
      rewrite touch_imagePaths; eauto.
  - unfold uploadImage. destruct (truthy sid); [|unchanged].
    destruct (sessions srv !! sid) as [session|] eqn:E; [|unchanged].
    case_bool_decide; [unchanged|].
    case_bool_decide; simpl.
    { by rewrite cleanupSession_gone. }
    destruct body as [|filename content|[] errMessage]; simpl;
      rewrite lookup_insert_eq; intros [= <-]; simpl; eauto.
    rewrite lookup_insert_ne; [eauto|]. simpl in Hid. congruence.
  - unfold fetchImage. destruct (truthy sid); [|unchanged].
    destruct (sessions srv !! sid) as [session|] eqn:E; [|unchanged].
    repeat case_match; unchanged.
Qed.

Lemma step_entry_kept (Q : option string → Prop) e srv sid iid :
  Q None →
  doesNotUpload iid e →
  (∀ s, sessions srv !! sid = Some s → Q (imagePaths s !! iid)) →
  ∀ s', sessions (step e srv).2 !! sid = Some s' → Q (imagePaths s' !! iid).
Proof.
  intros HQ He Hinv s'. destruct e as [r|now|n].
  - rewrite step_serve_state. by apply handle_entry_kept.
  - simpl. rewrite sweep_lookup. destruct (sessions srv !! sid) as [s|] eqn:E; [|done].
    case_bool_decide; [done|]. intros [= <-]. eauto.
  - simpl. destruct (runDeferred_sessions n srv sid) as [removed ->].
    destruct (sessions srv !! sid) as [s|] eqn:E; [|done]. simpl. intros [= <-].
    destruct removed as [i|]; simpl; [|eauto].
    destruct (decide (i = iid)) as [->|Hne].
    + by rewrite lookup_delete_eq.
    + rewrite lookup_delete_ne by done. eauto.
Qed.

Lemma exec_entry_kept (Q : option string → Prop) tr srv sid iid :
  Q None →
  Forall (doesNotUpload iid) tr →
  (∀ s, sessions srv !! sid = Some s → Q (imagePaths s !! iid)) →
  ∀ s', sessions (exec tr srv).2 !! sid = Some s' → Q (imagePaths s' !! iid).
Proof.
  intros HQ Htr. revert srv. induction Htr as [|e tr He Htr IH]; intros srv Hinv; [exact Hinv|].
  rewrite exec_cons. cbn [snd]. apply IH. by apply step_entry_kept.
Qed.

(** The turn of a post-send cleanup. *)
Lemma runDeferred_postSend n srv sid iid imagePath :
  deferred srv !! n = Some (PostSendCleanup sid iid imagePath) →
  disk (runDeferred n srv) !! imagePath = None
  ∧ (disk srv !! imagePath = None →
     sessions (runDeferred n srv) = sessions srv)
  ∧ (is_Some (disk srv !! imagePath) →
     ∀ s', sessions (runDeferred n srv) !! sid = Some s' →
           ∃ s, sessions srv !! sid = Some s
                ∧ (truthyProp (imagePaths s !! iid) = true → imagePaths s' !! iid = None)
                ∧ (truthyProp (imagePaths s !! iid) = false → s' = s)).
Proof.
  intros Hn. unfold runDeferred. rewrite Hn. unfold runTask, fs_unlink.
  destruct (disk srv !! imagePath) as [content|] eqn:Hd.
  - cbn [set_disk sessions].
    destruct (sessions srv !! sid) as [currentSession|] eqn:Hs.
    + destruct (truthyProp (imagePaths currentSession !! iid)) eqn:Hp;
        cbn [disk sessions store set_sessions].
      * split; [apply lookup_delete_eq|]. split; [done|]. intros _ s'.
        rewrite lookup_insert_eq. intros [= <-]. exists currentSession.
        split; [done|]. split; [|by rewrite Hp]. intros _. simpl. apply lookup_delete_eq.
      * split; [apply lookup_delete_eq|]. split; [done|]. intros _ s'.
        cbn [sessions set_disk]. rewrite Hs. intros [= <-].
        exists currentSession. split; [done|]. by rewrite Hp.
    + cbn [disk sessions]. split; [apply lookup_delete_eq|]. split; [done|].
      intros _ s'. cbn [sessions set_disk]. intros Hs'. by rewrite Hs in Hs'.
  - cbn [disk sessions]. split; [done|]. split; [done|]. by intros [? [=]].
Qed.

(** C1 (amended). A fetch that returns the stored bytes leaves the session
    and the file as they are and queues its cleanup: a fetch repeated before
    that cleanup has taken its turn returns the same bytes again.  When the
    cleanup takes its turn, whatever has happened since (no upload producing
    the same identifier again), the file is absent afterwards and a fetch is
    answered 404; and when the cleanup found the file in place, it has
    removed the entry of the identifier from the image map, and every later
    fetch of the identifier in that session is answered 404. *)
Theorem fetch_at_most_once sessionId imageId srv contentType body tr1 n tr2 :
  (fetchImage sessionId imageId srv).1 = ImageBytes contentType body →
  Forall (doesNotUpload imageId) tr1 →
  Forall (doesNotUpload imageId) tr2 →
  ∃ imagePath,
    (fetchImage sessionId imageId srv).2
    = defer (PostSendCleanup sessionId imageId imagePath) srv
    ∧ (fetchImage sessionId imageId (fetchImage sessionId imageId srv).2).1
      = ImageBytes contentType body
    ∧ (deferred (exec tr1 (fetchImage sessionId imageId srv).2).2 !! n
       = Some (PostSendCleanup sessionId imageId imagePath) →
       disk (runDeferred n (exec tr1 (fetchImage sessionId imageId srv).2).2) !! imagePath
       = None
       ∧ httpCode
           (fetchImage sessionId imageId
              (runDeferred n (exec tr1 (fetchImage sessionId imageId srv).2).2)).1
         = 404
       ∧ (is_Some (disk (exec tr1 (fetchImage sessionId imageId srv).2).2 !! imagePath) →
          (∀ s, sessions (runDeferred n (exec tr1 (fetchImage sessionId imageId srv).2).2)
                  !! sessionId = Some s →
                imagePaths s !! imageId = None)
          ∧ httpCode
              (fetchImage sessionId imageId
                 (exec tr2
                    (runDeferred n (exec tr1 (fetchImage sessionId imageId srv).2).2)).2).1
            = 404)).
Proof.
  intros Hfetch Htr1 Htr2.
  destruct (fetchImage_delivers _ _ _ _ _ Hfetch)
    as (session & imagePath & Hs & Hi & Hp & Hd & Hstate).
  exists imagePath. split; [exact Hstate|]. split.
  { rewrite Hstate. rewrite <- Hfetch. unfold fetchImage, defer. cbn [sessions disk].
    destruct (truthy sessionId); [|done]. rewrite Hs, Hi, Hp. cbn [negb].
    unfold fs_readFile. by rewrite Hd. }
  rewrite Hstate. set (srv1 := (exec tr1 _).2). intros Hn.
  assert (∀ s, sessions srv1 !! sessionId = Some s →
               imagePaths s !! imageId = None ∨ imagePaths s !! imageId = Some imagePath)
    as Hentry.
  { apply (exec_entry_kept (λ o, o = None ∨ o = Some imagePath)); [by left|done|].
    intros s. cbn [defer sessions]. rewrite Hs. intros [= <-]. by right. }
  destruct (runDeferred_postSend n srv1 sessionId imageId imagePath Hn)
    as (Hdisk & Habsent & Hpresent).
  assert (∀ s, sessions (runDeferred n srv1) !! sessionId = Some s →
               imagePaths s !! imageId = None
               ∨ (imagePaths s !! imageId = Some imagePath ∧ disk srv1 !! imagePath = None))
    as Hafter.
  { intros s' Hs'. destruct (disk srv1 !! imagePath) as [content|] eqn:Hd1.
    - destruct (Hpresent ltac:(eauto) s' Hs') as (s & Hs1 & Hdel & Hkeep).
      destruct (Hentry s Hs1) as [Hnone|Hsome].
      + rewrite (Hkeep ltac:(by rewrite Hnone)). by left.
      + left. apply Hdel. rewrite Hsome. exact Hp.
    - rewrite (Habsent eq_refl) in Hs'.
      destruct (Hentry s' Hs') as [Hnone|Hsome]; [by left|by right]. }
  split; [exact Hdisk|]. split.
  { unfold fetchImage. destruct (truthy sessionId); [|done].
    destruct (sessions (runDeferred n srv1) !! sessionId) as [s|] eqn:Hs2; [|done].
    destruct (Hafter s eq_refl) as [Hnone|[Hsome _]].
    - by rewrite Hnone.
    - rewrite Hsome, Hp. cbn [negb]. unfold fs_readFile. by rewrite Hdisk. }
  intros [content Hd1].
  assert (∀ s, sessions (runDeferred n srv1) !! sessionId = Some s →
               imagePaths s !! imageId = None) as Hgone.
  { intros s Hs2. destruct (Hafter s Hs2) as [Hnone|[_ Hcontra]]; [done|].
    by rewrite Hd1 in Hcontra. }
  split; [exact Hgone|].
  apply fetchImage_not_found. apply exec_entry; [done|].
  intros s H. by rewrite (Hgone s H).
Qed.

(** ** Further properties of the session routes *)

(** *** Unknown sessions *)

Lemma handle_absent r srv sid :
  target r = Some sid →
  ¬ creates sid (Serve r) →
  sessions srv !! sid = None →
  (handle r srv).2 = srv
  ∧ ∃ message, (handle r srv).1 = Failure 404 message ∨ (handle r srv).1 = Failure 400 message.
Proof.
  intros Ht Hc Hs.
  destruct r as [sessionId now nowExp fullUrl qr|sessionId now nowExp
                |sessionId clientType now count|sessionId now nowExp uuid body
                |sessionId imageId]; simpl in Ht; simplify_eq; simpl.
  - by destruct Hc.
  - unfold connectSender. rewrite Hs. eauto.
  - unfold pollStatus. case_match; [eauto|]. rewrite Hs. eauto.
  - unfold uploadImage. destruct (truthy sid); rewrite ?Hs; eauto.
  - unfold fetchImage. destruct (truthy sid); rewrite ?Hs; eauto.
Qed.

Lemma step_absent e srv sid :
  ¬ creates sid e →
  sessions srv !! sid = None →
  sessions (step e srv).2 !! sid = None
  ∧ ∀ r, e = Serve r → target r = Some sid →
         ∃ message, (step e srv).1 = Some (Failure 404 message)
                    ∨ (step e srv).1 = Some (Failure 400 message).
Proof.
  intros Hc Hs. destruct e as [r|now|n].
  - rewrite step_serve_state, step_serve_reply.
    destruct (decide (target r = Some sid)) as [Ht|Ht].
    + destruct (handle_absent r srv sid Ht Hc Hs) as [-> [message Hm]].
      split; [done|]. intros ? _ _. exists message. destruct Hm as [-> | ->]; eauto.
    + rewrite handle_frame by done. split; [done|]. intros r' [= <-] Ht'. done.
  - simpl. rewrite sweep_lookup, Hs. split; [done|]. intros r [=].
  - simpl. destruct (runDeferred_sessions n srv sid) as [removed ->]. rewrite Hs.
    split; [done|]. intros r [=].
Qed.

(** X1. A session that is not in the store, under an identifier that is no
    name inherited from [Object.prototype], stays out of it as long as no
    session is created under the identifier, and every request addressed to
    it in the meantime is refused with 404 or 400; the requests served in the
    meantime address no inherited name either. *)
Theorem absent_session_stays_absent tr srv sessionId :
  sessions srv !! sessionId = None →
  inherited sessionId = false →
  Forall (λ e, ¬ creates sessionId e ∧ wellNamedEvent e) tr →
  sessions (exec tr srv).2 !! sessionId = None
  ∧ Forall (λ entry, ∀ r, entry.1 = Serve r → target r = Some sessionId →
                          ∃ message, entry.2 = Some (Failure 404 message)
                                     ∨ entry.2 = Some (Failure 400 message))
           (exec tr srv).1.
Proof.
  intros Hs _ Htr. revert srv Hs.
  induction Htr as [|e tr [He _] Htr IH]; intros srv Hs.
  - split; [done|]. constructor.
  - rewrite exec_cons. cbn [fst snd].
    destruct (step_absent e srv sessionId He Hs) as [Hs' Hreply].
    destruct (IH _ Hs') as [Hend Hlog]. split; [done|].
    constructor; [|done]. exact Hreply.
Qed.

(** *** Independence of sessions *)

Lemma handle_reply_local r srv srv' :
  (∀ sid, target r = Some sid → sessions srv' !! sid = sessions srv !! sid) →
  disk srv' = disk srv →
  (handle r srv').1 = (handle r srv).1.
Proof.
  intros Hs Hd.
  destruct r as [sessionId now nowExp fullUrl qr|sessionId now nowExp
                |sessionId clientType now count|sessionId now nowExp uuid body
                |sessionId imageId]; simpl in Hs; simpl.
  - unfold requestPairing. by destruct qr.
  - unfold connectSender. rewrite (Hs sessionId eq_refl).
    destruct (sessions srv !! sessionId); [|done]. by case_match.
  - unfold pollStatus. case_match; [done|]. rewrite (Hs sessionId eq_refl).
    destruct (sessions srv !! sessionId); [|done]. by case_match.
  - unfold uploadImage. destruct sessionId as [sid|]; [|done].
    rewrite (Hs sid eq_refl).
    destruct (if truthy sid then sessions srv !! sid else None); [|done].
    case_match; [done|]. case_match; [done|].
    destruct body as [|filename content|[] errMessage]; done.
  - unfold fetchImage. rewrite (Hs sessionId eq_refl), Hd.
    destruct (if truthy sessionId then sessions srv !! sessionId else None)
      as [session|]; [|done].
    destruct (imagePaths session !! imageId) as [imagePath|]; [|done].
    destruct (negb (truthy imagePath)); [done|].
    by destruct (fs_readFile imagePath (disk srv)) as [[]|].
Qed.

Lemma handle_withCount count r srv :
  withoutPhotoCount (handle (withCount count r) srv).1 = withoutPhotoCount (handle r srv).1.
Proof.
  destruct r as [sessionId now nowExp fullUrl qr|sessionId now nowExp
                |sessionId clientType now count0|sessionId now nowExp uuid body
                |sessionId imageId]; try reflexivity.
  simpl. unfold pollStatus. case_match; [done|].
  destruct (sessions srv !! sessionId); [|done]. by case_match.
Qed.

Lemma target_withCount count r : target (withCount count r) = target r.
Proof. by destruct r. Qed.

(** X2. A request changes no session but the one it addresses.  When its
    identifiers are no names inherited from [Object.prototype], its reply,
    apart from the photo count that a status reply carries, depends on the
    state of the server only through the session it addresses and the upload
    directory. *)
Theorem requests_do_not_interfere r srv :
  (∀ sid, target r ≠ Some sid → sessions (handle r srv).2 !! sid = sessions srv !! sid)
  ∧ (wellNamed r →
     ∀ srv' count',
       (∀ sid, target r = Some sid → sessions srv' !! sid = sessions srv !! sid) →
       disk srv' = disk srv →
       withoutPhotoCount (handle (withCount count' r) srv').1
       = withoutPhotoCount (handle r srv).1).
Proof.
  split; [intros sid; apply handle_frame|].
  intros _ srv' count' Hs Hd. rewrite handle_withCount. f_equal.
  by apply handle_reply_local.
Qed.

(** *** Uploads *)

(** [uploadImage] is the upload route with its steps run in a row. *)
Lemma uploadImage_steps sessionId now nowExp uuid body srv :
  uploadImage sessionId now nowExp uuid body srv
  = uploadInOneRun sessionId now nowExp uuid body srv.
Proof.
  unfold uploadInOneRun, uploadBegin, uploadImage.
  destruct sessionId as [sid|]; [|done].
  destruct (if truthy sid then sessions srv !! sid else None) as [session|]; [|done].
  destruct (bool_decide (status session ≠ connected)); [done|].
  destruct (bool_decide (now > receiverLastSeen session + SESSION_TIMEOUT_MS)); [done|].
  unfold uploadFinish, uploadWrite.
  destruct body as [|filename content|[] errMessage]; try reflexivity.
  cbn [fst snd store set_sessions set_disk sessions disk deferred].
  rewrite lookup_insert_eq. reflexivity.
Qed.

Lemma uploadBegin_passed sessionId now nowExp srv sid :
  (uploadBegin (Some sessionId) now nowExp srv).1 = inr sid →
  sid = sessionId ∧ truthy sessionId = true.
Proof.
  unfold uploadBegin. destruct (truthy sessionId); [|done].
  destruct (sessions srv !! sessionId) as [session|]; [|done].
  destruct (bool_decide (status session ≠ connected)); [done|].
  destruct (bool_decide (now > receiverLastSeen session + SESSION_TIMEOUT_MS)); [done|].
  by intros [= <-].
Qed.


(** X4. An upload that is not accepted queues nothing: every session that
    remains in the store keeps its image map and its pending queue. *)
Theorem rejected_upload_queues_nothing sessionId now nowExp uuid body srv :
  (∀ message, (uploadImage sessionId now nowExp uuid body srv).1 ≠ UploadAccepted message) →
  ∀ sid s', sessions (uploadImage sessionId now nowExp uuid body srv).2 !! sid = Some s' →
            ∃ s, sessions srv !! sid = Some s
                 ∧ imagePaths s' = imagePaths s
                 ∧ pendingImageIds s' = pendingImageIds s.
Proof.
  unfold uploadImage. destruct sessionId as [sessionId|]; [|eauto].
  destruct (truthy sessionId); [|eauto].
  destruct (sessions srv !! sessionId) as [session|] eqn:Hs; [|eauto].
  case_bool_decide; [eauto|]. case_bool_decide; cbn [fst snd].
  { intros _ sid s'.
    destruct (decide (sessionId = sid)) as [->|Hne].
    - by rewrite cleanupSession_gone.
    - rewrite cleanupSession_other by done. simpl. rewrite lookup_insert_ne by done. eauto. }
  assert (∀ sid s',
            sessions (store sessionId (set_expiresAt (calculateExpiresAt nowExp) session) srv)
              !! sid = Some s' →
            ∃ s, sessions srv !! sid = Some s ∧ imagePaths s' = imagePaths s
                 ∧ pendingImageIds s' = pendingImageIds s) as Hkept.
  { intros sid s'. simpl. destruct (decide (sessionId = sid)) as [->|Hne].
    - rewrite lookup_insert_eq. intros [= <-]. eauto.
    - rewrite lookup_insert_ne by done. eauto. }
  destruct body as [|filename content|[] errMessage]; cbn [fst snd]; intros Hrej; try done.
  by destruct (Hrej _ eq_refl).
Qed.

(** *** Status polls *)

(** What a successful poll has found and what it leaves behind. *)
Lemma pollStatus_report sid clientType now count srv payload :
  (pollStatus sid clientType now count srv).1 = StatusReport payload →
  ∃ session,
    sessions srv !! sid = Some session
    ∧ ¬ expiresAt session < now
    ∧ (clientType = Some "receiver" ∨ clientType = Some "sender")
    ∧ payload
      = mkStatusPayload
          (status (touch (bool_decide (clientType = Some "receiver")) now session))
          (bool_decide (status (touch (bool_decide (clientType = Some "receiver")) now session)
                        = connected))
          (Z.max 0 (expiresAt session - now))
          (if bool_decide (clientType = Some "receiver") then pendingImageIds session else [])
          (Z.max 0 count)
    ∧ sessions (pollStatus sid clientType now count srv).2 !! sid
      = Some (if bool_decide (clientType = Some "receiver")
              then set_pendingImageIds []
                     (touch (bool_decide (clientType = Some "receiver")) now session)
              else touch (bool_decide (clientType = Some "receiver")) now session).
Proof.
  unfold pollStatus.
  destruct (negb (bool_decide (clientType = Some "receiver"))
            && negb (bool_decide (clientType = Some "sender"))) eqn:Hct; [done|].
  destruct (sessions srv !! sid) as [session|] eqn:Hs; [|done].
  destruct (bool_decide (expiresAt (touch _ now session) < now)) eqn:Hexp; [done|].
  apply bool_decide_eq_false in Hexp. rewrite touch_expiresAt in Hexp.
  cbn [fst snd]. intros [= <-]. exists session. split; [done|]. split; [done|].
  split.
  { apply andb_false_iff in Hct as [Hct|Hct]; apply negb_false_iff, bool_decide_eq_true in Hct;
      eauto. }
  rewrite touch_expiresAt, touch_pendingImageIds.
  destruct (bool_decide (clientType = Some "receiver")); cbn [andb].
  - destruct (pendingImageIds session) as [|i l] eqn:Hp; cbn [length].
    + rewrite (bool_decide_eq_false_2 (0 < 0)%nat) by lia.
      split; [done|]. simpl. rewrite lookup_insert_eq. f_equal.
      pose proof (touch_pendingImageIds true now session) as Hq. rewrite Hp in Hq.
      destruct (touch true now session). simpl in Hq. by subst.
    + rewrite (bool_decide_eq_true_2 (0 < S (length l))%nat) by lia.
      split; [done|]. simpl. by rewrite lookup_insert_eq.
  - split; [done|]. simpl. by rewrite lookup_insert_eq.
Qed.

(** X5. A poll by the sender never takes images from the queue: it returns
    no identifier, and the pending queue and the image map of the session are
    as before; it records the sender's time and leaves the receiver's. *)
Theorem sender_poll_keeps_queue sessionId now count srv payload :
  (pollStatus sessionId (Some "sender") now count srv).1 = StatusReport payload →
  newImageIds payload = []
  ∧ ∃ s s', sessions srv !! sessionId = Some s
            ∧ sessions (pollStatus sessionId (Some "sender") now count srv).2 !! sessionId
              = Some s'
            ∧ pendingImageIds s' = pendingImageIds s
            ∧ imagePaths s' = imagePaths s
            ∧ senderLastSeen s' = now
            ∧ receiverLastSeen s' = receiverLastSeen s.
Proof.
  intros H. apply pollStatus_report in H as (s & Hs & _ & _ & -> & Hafter).
  rewrite (bool_decide_eq_false_2 (Some "sender" = Some "receiver")) in * by done.
  split; [done|]. exists s, (touch false now s).
  split; [done|]. split; [done|].
  rewrite touch_pendingImageIds, touch_imagePaths. split; [done|]. split; [done|].
  unfold touch. simpl. case_match; done.
Qed.

(** X6. The fields of a successful poll: the status reported is the one
    stored, the partner counts as connected exactly in status [connected],
    the remaining time is the distance to the deadline and is never
    negative, the photo count is never negative, and a status other than
    [connected] is left as it is. *)
Theorem poll_report_fields sessionId clientType now count srv payload :
  (pollStatus sessionId clientType now count srv).1 = StatusReport payload →
  ∃ s s', sessions srv !! sessionId = Some s
          ∧ sessions (pollStatus sessionId clientType now count srv).2 !! sessionId = Some s'
          ∧ sessionStatus payload = status s'
          ∧ (partnerConnected payload = true ↔ status s' = connected)
          ∧ remainingTimeoutMs payload = expiresAt s - now
          ∧ 0 ≤ remainingTimeoutMs payload
          ∧ 0 ≤ photoCount payload
          ∧ expiresAt s' = expiresAt s
          ∧ (status s ≠ connected → status s' = status s).
Proof.
  intros H. apply pollStatus_report in H as (s & Hs & Hlive & _ & -> & Hafter).
  eexists s, _. split; [done|]. split; [exact Hafter|]. cbn.
  set (receiver := bool_decide (clientType = Some "receiver")).
  assert (∀ t, status (if receiver then set_pendingImageIds [] t else t) = status t) as Hst
    by (intros t; by destruct receiver).
  assert (∀ t, expiresAt (if receiver then set_pendingImageIds [] t else t) = expiresAt t) as Hex
    by (intros t; by destruct receiver).
  rewrite Hst, Hex, touch_expiresAt.
  split; [done|]. split; [apply bool_decide_eq_true|]. split; [lia|]. split; [lia|].
  split; [lia|]. split; [done|]. apply touch_status_stable.
Qed.


(** *** Sweeping and cleanup *)

Lemma sweep_fold_nothing_due now l srv :
  (∀ sid s, sessions srv !! sid = Some s → ¬ expiresAt s < now) →
  foldl (expireIfDue now) srv l = srv.
Proof.
  intros Hlive. induction l as [|k l IH]; [done|]. cbn [foldl].
  assert (expireIfDue now srv k = srv) as ->; [|exact IH].
  unfold expireIfDue. destruct (sessions srv !! k) as [s|] eqn:E; [|done].
  rewrite bool_decide_eq_false_2; [done|]. by apply (Hlive k).
Qed.

(** X8. A run of the sweeper removes exactly the sessions whose deadline is
    before [now] and leaves every other session as it is; it deletes no file
    itself; and a second run at the same time, like a second
    [cleanupSession] of the same session, changes nothing. *)
Theorem sweep_removes_exactly_expired now srv :
  (∀ sid, sessions (runExpiredSessionCleanup now srv) !! sid
          = match sessions srv !! sid with
            | Some s => if bool_decide (expiresAt s < now) then None else Some s
            | None => None
            end)
  ∧ disk (runExpiredSessionCleanup now srv) = disk srv
  ∧ runExpiredSessionCleanup now (runExpiredSessionCleanup now srv)
    = runExpiredSessionCleanup now srv
  ∧ (∀ sid, cleanupSession sid (cleanupSession sid srv) = cleanupSession sid srv).
Proof.
  split; [intros sid; apply sweep_lookup|]. split; [apply sweep_fold_disk|]. split.
  - unfold runExpiredSessionCleanup at 1. apply sweep_fold_nothing_due.
    intros sid s. rewrite sweep_lookup. destruct (sessions srv !! sid) as [s0|]; [|done].
    case_bool_decide; [done|]. by intros [= <-].
  - intros sid. unfold cleanupSession at 1. by rewrite cleanupSession_gone.
Qed.

(** X9. The deferred unlink loop, once it has taken its turns, has removed
    the files it lists and no other file, and has touched no session. *)
Theorem cleanup_loop_removes_only_listed sessionId imagePathsToDelete srv n :
  deferred srv !! n = Some (CleanupFiles sessionId imagePathsToDelete) →
  (∀ p, disk (exec (replicate (length imagePathsToDelete) (Resume n)) srv).2 !! p
        = if decide (p ∈ imagePathsToDelete) then None else disk srv !! p)
  ∧ sessions (exec (replicate (length imagePathsToDelete) (Resume n)) srv).2 = sessions srv.
Proof.
  intros Hn. destruct (cleanup_task_runs _ _ _ _ Hn) as [Hd Hs].
  split; [|done]. intros p. rewrite Hd. apply unlinkAll_lookup.
Qed.

Lemma unlinkAll_sessions paths srv : sessions (unlinkAll paths srv) = sessions srv.
Proof.
  unfold unlinkAll. revert srv. induction paths as [|p paths IH]; intros srv; [done|].
  cbn [foldl]. by rewrite IH, unlinkQuietly_sessions.
Qed.

Lemma unlinkAll_deferred paths srv : deferred (unlinkAll paths srv) = deferred srv.
Proof.
  unfold unlinkAll. revert srv. induction paths as [|p paths IH]; intros srv; [done|].
  cbn [foldl]. by rewrite IH, unlinkQuietly_deferred.
Qed.

Lemma server_eq srv1 srv2 :
  sessions srv1 = sessions srv2 → disk srv1 = disk srv2 → deferred srv1 = deferred srv2 →
  srv1 = srv2.
Proof. destruct srv1, srv2. simpl. by intros -> -> ->. Qed.

(** The post-send cleanup of an image whose session is gone. *)
Lemma postSendCleanup_orphan sid iid p srv :
  sessions srv !! sid = None →
  (runTask (PostSendCleanup sid iid p) srv).1 = set_disk (delete p (disk srv)) srv.
Proof.
  intros Hs. simpl. unfold fs_unlink. destruct (disk srv !! p) eqn:E; simpl.
  - by rewrite Hs.
  - apply server_eq; simpl; [done| |done]. symmetry. by apply delete_id.
Qed.

(** X10. Delivery and expiry tolerate each other: when the session of a
    delivered image has been destroyed in the meantime, its post-send cleanup
    changes no session, and it may run before or after the unlink loop of the
    destroyed session with the same outcome, whether or not the file is
    still there. *)
Theorem post_send_cleanup_commutes sessionId imageId imagePath imagePathsToDelete srv :
  sessions srv !! sessionId = None →
  sessions (runTask (PostSendCleanup sessionId imageId imagePath) srv).1 = sessions srv
  ∧ (runTask (PostSendCleanup sessionId imageId imagePath) (unlinkAll imagePathsToDelete srv)).1
    = unlinkAll imagePathsToDelete
        (runTask (PostSendCleanup sessionId imageId imagePath) srv).1.
Proof.
  intros Hs. rewrite !postSendCleanup_orphan by (by rewrite ?unlinkAll_sessions).
  split; [done|]. apply server_eq.
  - simpl. by rewrite !unlinkAll_sessions.
  - apply map_eq. intros x. simpl. rewrite unlinkAll_lookup. simpl.
    destruct (decide (imagePath = x)) as [->|Hne].
    + rewrite !lookup_delete_eq. by case_decide.
    + rewrite !lookup_delete_ne by done. by rewrite unlinkAll_lookup.
  - simpl. by rewrite !unlinkAll_deferred.
Qed.

(** *** Invariants of the store *)

Lemma exec_invariant (P : Server → Prop) tr srv :
  (∀ e s, P s → P (step e s).2) → P srv → P (exec tr srv).2.
Proof.
  intros Hstep. revert srv. induction tr as [|e tr IH]; intros srv HP; [done|].
  rewrite exec_cons. cbn [snd]. by apply IH, Hstep.
Qed.

Lemma touch_status_waiting receiver now session :
  status (touch receiver now session) = waiting_for_sender →
  status session = waiting_for_sender.
Proof. unfold touch. destruct receiver; simpl; case_match; simpl; done. Qed.

Lemma handle_waitingHoldsNothing r srv :
  waitingHoldsNothing srv → waitingHoldsNothing (handle r srv).2.
Proof.
  intros Hinv sid s'. destruct (decide (target r = Some sid)) as [Ht|Ht].
  2: { rewrite handle_frame by done. apply Hinv. }
  destruct r as [sessionId now nowExp fullUrl qr|sessionId now nowExp
                |sessionId clientType now count|sessionId now nowExp uuid body
                |sessionId imageId]; simpl in Ht; simplify_eq; simpl.
  - unfold requestPairing. destruct qr; simpl; [|apply Hinv].
    rewrite lookup_insert_eq. by intros [= <-].
  - unfold connectSender.
    destruct (sessions srv !! sid) as [session|] eqn:E; [|simpl; apply Hinv].
    case_match; [simpl; apply Hinv|]. simpl. rewrite lookup_insert_eq. by intros [= <-].
  - unfold pollStatus. case_match; [simpl; apply Hinv|].
    destruct (sessions srv !! sid) as [session|] eqn:E; [|simpl; apply Hinv].
    case_match; simpl.
    { by rewrite cleanupSession_gone. }
    case_match; simpl; rewrite lookup_insert_eq; intros [= <-]; simpl;
      intros Hw%touch_status_waiting; destruct (Hinv sid session E Hw) as [Hi Hp];
      rewrite ?touch_imagePaths, ?touch_pendingImageIds; done.
  - unfold uploadImage. destruct (truthy sid); [|simpl; apply Hinv].
    destruct (sessions srv !! sid) as [session|] eqn:E; [|simpl; apply Hinv].
    case_bool_decide as Hst; [simpl; apply Hinv|].
    case_bool_decide; simpl.
    { by rewrite cleanupSession_gone. }
    destruct body as [|filename content|[] errMessage]; simpl;
      rewrite lookup_insert_eq; intros [= <-]; simpl; intros Hw; by rewrite Hw in Hst.
  - unfold fetchImage. destruct (truthy sid); [|simpl; apply Hinv].
    destruct (sessions srv !! sid) as [session|] eqn:E; [|simpl; apply Hinv].
    repeat case_match; simpl; apply Hinv.
Qed.

Lemma step_waitingHoldsNothing e srv :
  waitingHoldsNothing srv → waitingHoldsNothing (step e srv).2.
Proof.
  intros Hinv. destruct e as [r|now|n].
  - rewrite step_serve_state. by apply handle_waitingHoldsNothing.
  - intros sid s'. simpl. rewrite sweep_lookup.
    destruct (sessions srv !! sid) as [s|] eqn:E; [|done].
    case_bool_decide; [done|]. intros [= <-]. by apply (Hinv sid).
  - intros sid s'. simpl. destruct (runDeferred_sessions n srv sid) as [removed ->].
    destruct (sessions srv !! sid) as [s|] eqn:E; [|done]. simpl. intros [= <-].
    rewrite without_image_status, without_image_pendingImageIds. intros Hw.
    destruct (Hinv sid s E Hw) as [Hi Hp]. split; [|done].
    destruct removed as [i|]; simpl; [|done]. rewrite Hi. apply delete_empty.
Qed.

(** X11. No image before a sender has connected: in every state the server
    reaches from start-up, a session in status [waiting_for_sender] has an
    empty image map and an empty pending queue. *)
Theorem waiting_session_holds_no_image tr sessionId session :
  sessions (exec tr initial).2 !! sessionId = Some session →
  status session = waiting_for_sender →
  imagePaths session = ∅ ∧ pendingImageIds session = [].
Proof.
  apply (exec_invariant waitingHoldsNothing tr initial).
  - intros e s. apply step_waitingHoldsNothing.
  - intros sid s. simpl. by rewrite lookup_empty.
Qed.

Lemma runTask_disk t srv p :
  is_Some (disk (runTask t srv).1 !! p) → is_Some (disk srv !! p).
Proof.
  destruct t as [sessionId [|imagePath rest]|sessionId imageId imagePath]; simpl; [done| |].
  - rewrite unlinkQuietly_disk. destruct (decide (imagePath = p)) as [->|Hne].
    + rewrite lookup_delete_eq. by intros [? [=]].
    + by rewrite lookup_delete_ne.
  - unfold fs_unlink. destruct (disk srv !! imagePath) eqn:E; simpl; [|done].
    assert (is_Some (delete imagePath (disk srv) !! p) → is_Some (disk srv !! p)) as Hdel.
    { destruct (decide (imagePath = p)) as [->|Hne].
      - rewrite lookup_delete_eq. by intros [? [=]].
      - by rewrite lookup_delete_ne. }
    destruct (sessions srv !! sessionId) as [currentSession|]; simpl; [|done].
    by destruct (truthyProp (imagePaths currentSession !! imageId)).
Qed.

Lemma runDeferred_disk n srv p :
  is_Some (disk (runDeferred n srv) !! p) → is_Some (disk srv !! p).
Proof.
  unfold runDeferred. destruct (deferred srv !! n) as [t|]; [|done].
  pose proof (runTask_disk t srv p) as H. by destruct (runTask t srv).
Qed.

Lemma handle_disk r srv p :
  is_Some (disk (handle r srv).2 !! p) →
  is_Some (disk srv !! p) ∨ ∃ imageId, p = path_join UPLOAD_DIR imageId.
Proof.
  destruct r as [sessionId now nowExp fullUrl qr|sessionId now nowExp
                |sessionId clientType now count|sessionId now nowExp uuid body
                |sessionId imageId]; simpl.
  - unfold requestPairing. destruct qr; eauto.
  - unfold connectSender. destruct (sessions srv !! sessionId); [|eauto]. case_match; eauto.
  - unfold pollStatus. case_match; [eauto|].
    destruct (sessions srv !! sessionId); [|eauto].
    case_match; simpl; [rewrite cleanupSession_disk; eauto|]. case_match; eauto.
  - unfold uploadImage. destruct sessionId as [sid|]; [|eauto].
    destruct (if truthy sid then sessions srv !! sid else None); [|eauto].
    case_match; [eauto|]. case_match; simpl; [rewrite cleanupSession_disk; eauto|].
    destruct body as [|filename content|[] errMessage]; simpl; eauto.
    unfold fs_writeFile.
    match goal with |- context [<[?q := _]> _] => destruct (decide (q = p)) as [<-|Hne] end.
    + eauto.
    + rewrite lookup_insert_ne by done. eauto.
  - unfold fetchImage.
    destruct (if truthy sessionId then sessions srv !! sessionId else None); [|eauto].
    repeat case_match; eauto.
Qed.

Lemma handle_entries r srv sid s' imageId imagePath :
  sessions (handle r srv).2 !! sid = Some s' →
  imagePaths s' !! imageId = Some imagePath →
  (∃ s, sessions srv !! sid = Some s ∧ imagePaths s !! imageId = Some imagePath)
  ∨ imagePath = path_join UPLOAD_DIR imageId.
Proof.
  destruct (decide (target r = Some sid)) as [Ht|Ht].
  2: { rewrite handle_frame by done. eauto. }
  destruct r as [sessionId now nowExp fullUrl qr|sessionId now nowExp
                |sessionId clientType now count|sessionId now nowExp uuid body
                |sessionId iid]; simpl in Ht; simplify_eq; simpl.
  - unfold requestPairing. destruct qr; simpl; [|eauto].
    rewrite lookup_insert_eq. intros [= <-]. simpl. by rewrite lookup_empty.
  - unfold connectSender.
    destruct (sessions srv !! sid) as [session|] eqn:E; [|unchanged].
    case_match; [unchanged|]. simpl. rewrite lookup_insert_eq. intros [= <-]. simpl. eauto.
  - unfold pollStatus. case_match; [unchanged|].
    destruct (sessions srv !! sid) as [session|] eqn:E; [|unchanged].
    case_match; simpl.
    { by rewrite cleanupSession_gone. }
    case_match; simpl; rewrite lookup_insert_eq; intros [= <-]; simpl;
      rewrite touch_imagePaths; eauto.
  - unfold uploadImage. destruct (truthy sid); [|unchanged].
    destruct (sessions srv !! sid) as [session|] eqn:E; [|unchanged].
    case_bool_decide; [unchanged|].
    case_bool_decide; simpl.
    { by rewrite cleanupSession_gone. }
    destruct body as [|filename content|[] errMessage]; simpl;
      rewrite lookup_insert_eq; intros [= <-]; simpl; eauto.
    match goal with |- context [<[?q := _]> _] => destruct (decide (q = imageId)) as [<-|Hne] end.
    + rewrite lookup_insert_eq. intros [= <-]. by right.
    + rewrite lookup_insert_ne by done. eauto.
  - unfold fetchImage. destruct (truthy sid); [|unchanged].
    destruct (sessions srv !! sid) as [session|] eqn:E; [|unchanged].
    repeat case_match; unchanged.
Qed.

Lemma step_keepsToUploadDir e srv :
  keepsToUploadDir srv → keepsToUploadDir (step e srv).2.
Proof.
  intros [Hent Hdisk]. destruct e as [r|now|n].
  - rewrite step_serve_state. split.
    + intros sid s' imageId imagePath Hs' Hi.
      destruct (handle_entries r srv sid s' imageId imagePath Hs' Hi) as [(s & Hs & His)|H];
        [by eapply Hent|done].
    + intros p Hp. destruct (handle_disk r srv p Hp) as [H|H]; [by apply Hdisk|done].
  - simpl. split.
    + intros sid s' imageId imagePath. rewrite sweep_lookup.
      destruct (sessions srv !! sid) as [s|] eqn:E; [|done].
      case_bool_decide; [done|]. intros [= <-]. by apply (Hent sid).
    + intros p. unfold runExpiredSessionCleanup. rewrite sweep_fold_disk. apply Hdisk.
  - simpl. split.
    + intros sid s' imageId imagePath.
      destruct (runDeferred_sessions n srv sid) as [removed ->].
      destruct (sessions srv !! sid) as [s|] eqn:E; [|done]. simpl. intros [= <-].
      destruct removed as [i|]; simpl; [|by apply (Hent sid)].
      destruct (decide (i = imageId)) as [->|Hne].
      * by rewrite lookup_delete_eq.
      * rewrite lookup_delete_ne by done. by apply (Hent sid).
    + intros p Hp. by apply Hdisk, (runDeferred_disk n).
Qed.

(** X12. The server keeps to its upload directory: in every state reached
    from start-up, each entry of an image map points to the file named after
    its identifier in the upload directory, and every file written is such a
    file. *)
Theorem files_keep_to_upload_dir tr :
  (∀ sid s imageId imagePath,
     sessions (exec tr initial).2 !! sid = Some s →
     imagePaths s !! imageId = Some imagePath →
     imagePath = path_join UPLOAD_DIR imageId)
  ∧ (∀ p, is_Some (disk (exec tr initial).2 !! p) →
          ∃ imageId, p = path_join UPLOAD_DIR imageId).
Proof.
  apply (exec_invariant keepsToUploadDir tr initial).
  - intros e s. apply step_keepsToUploadDir.
  - split.
    + intros sid s imageId imagePath. simpl. by rewrite lookup_empty.
    + intros p. simpl. rewrite lookup_empty. by intros [? [=]].
Qed.

End Handlers.

(** ** Admin routes and client scripts: properties *)

Lemma startsWith_split p s :
  startsWith p s = true ↔ s = p +:+ substringFrom (String.length p) s.
Proof.
  revert s. induction p as [|a p IH]; intros s; simpl; [done|].
  destruct s as [|b r]; [done|]. rewrite andb_true_iff, bool_decide_eq_true, IH.
  split.
  - intros [-> H].
    change (String b r = String b (p +:+ substringFrom (String.length p) r)).
    by f_equal.
  - change (String b r = String a (p +:+ substringFrom (String.length p) r) → a = b ∧
            r = p +:+ substringFrom (String.length p) r).
    intros [= -> H]. done.
Qed.

Arguments startsWith : simpl never.
Arguments substringFrom : simpl never.

(** X13. The admin hook lets a request through exactly when credentials are
    configured and not empty and the Authorization header is "Basic "
    followed by a token that decodes to these very credentials; any other
    request is answered by the hook itself. *)
Theorem admin_auth_passes_iff creds decode authorization :
  checkAdminAuth creds decode authorization = Proceed
  ↔ ∃ c token, creds = Some c ∧ c ≠ ""
               ∧ authorization = Some ("Basic " +:+ token)
               ∧ decode token = Some c.
Proof.
  unfold checkAdminAuth. split.
  - destruct creds as [c|]; simpl; [|done].
    destruct (truthy c) eqn:Hc; simpl; [|done].
    destruct authorization as [h|]; [|done].
    destruct (truthy h); simpl; [|done].
    destruct (startsWith "Basic " h) eqn:Hp; simpl; [|done].
    destruct (decode (substringFrom 6 h)) as [d|] eqn:Hd; [|done].
    case_bool_decide as Hne; [done|]. intros _.
    injection Hne as ->.
    exists c, (substringFrom 6 h). split; [done|].
    split. { intros ->. done. }
    split; [|done]. f_equal. by apply (startsWith_split "Basic " h).
  - intros (c & token & -> & Hc & -> & Hd). simpl.
    unfold truthy at 1. rewrite bool_decide_eq_false_2 by done. simpl.
    change (substringFrom 6 ("Basic " +:+ token)) with token. rewrite Hd.
    rewrite bool_decide_eq_false_2; [done|]. intros H. by apply H.
Qed.

Lemma ceilDiv_spec a b : 0 < b → 0 ≤ a → (ceilDiv a b - 1) * b < a ≤ ceilDiv a b * b ∨ (a = 0 ∧ ceilDiv a b = 0).
Proof.
  intros Hb Ha. unfold ceilDiv.
  destruct (decide (a = 0)) as [->|Hne]; [right; split; [done|]; by rewrite Z.div_0_l by lia|].
  left. pose proof (Z.div_mod (-a) b ltac:(lia)). pose proof (Z.mod_pos_bound (-a) b Hb). nia.
Qed.

Section LogsFacts.

Context {Log : Type}.
Variable trim : string → string.
Variable parseJSON : string → option Log.
Variable sortLogs : string → string → list Log → option (list Log).

Lemma take_pages {A} (L n : nat) (l : list A) :
  concat (map (λ k, take L (drop (k * L) l)) (seq 0 n)) = take (n * L) l.
Proof.
  induction n as [|n IH]; [done|].
  rewrite seq_S, map_app, concat_app, IH. simpl. rewrite app_nil_r.
  replace (L + n * L)%nat with (n * L + L)%nat by lia.
  by rewrite take_take_drop.
Qed.

Lemma slice_page {A} (l : list A) (k limitNum : Z) :
  1 ≤ k → 1 ≤ limitNum →
  slice ((k - 1) * limitNum) ((k - 1) * limitNum + limitNum) l
  = take (Z.to_nat limitNum) (drop (Z.to_nat (k - 1) * Z.to_nat limitNum) l).
Proof.
  intros Hk Hl. unfold slice. f_equal; [nia|]. f_equal. nia.
Qed.

(** X14. The pages of the log route partition the log: when the entries of
    the file are read and sorted, then for a limit of at least 1 the pages
    1 to [totalPages], one after the other, are exactly these entries, none
    lost and none twice. *)
Theorem logs_pages_partition sort order logData limitNum allLogs :
  1 ≤ limitNum →
  readLogs trim parseJSON sortLogs (default "timestamp" sort) (default "desc" order) logData
  = Some allLogs →
  concat (map (λ k, logsOf (apiLogs trim parseJSON sortLogs (Some (Some k)) (Some (Some limitNum))
                                    sort order (LogFileData logData)))
              (seqZ 1 (ceilDiv (Z.of_nat (length allLogs)) limitNum)))
  = allLogs.
Proof.
  intros Hl Hall.
  pose proof (ceilDiv_spec (Z.of_nat (length allLogs)) limitNum ltac:(lia) ltac:(lia)) as Hc.
  set (n := ceilDiv _ _) in *.
  assert (0 ≤ n) as Hn by (destruct Hc; nia).
  transitivity (concat (map (λ k : nat, take (Z.to_nat limitNum)
                                     (drop (k * Z.to_nat limitNum) allLogs))
                            (seq 0 (Z.to_nat n)))).
  - f_equal. unfold seqZ. rewrite <- list_fmap_compose. apply list_fmap_ext.
    intros i k Hk. simpl. apply lookup_seq in Hk as [-> Hk].
    unfold apiLogs. simpl.
    rewrite !bool_decide_eq_false_2 by lia. simpl. rewrite Hall. simpl.
    rewrite slice_page by lia. do 2 f_equal. lia.
  - rewrite take_pages. apply take_ge. destruct Hc; nia.
Qed.

(** X15. A page of the log route: when the entries of the file are read and
    sorted, then for a page and a limit of at least 1 the reply carries the
    page asked for and the number of entries; [totalPages] is the least
    number of pages of [limit] entries that hold them all; and the page has
    [limit] entries, or what is left after the pages before it, or none when
    it lies past the last page. *)
Theorem logs_page_bounds pageNum limitNum sort order logData allLogs :
  1 ≤ pageNum → 1 ≤ limitNum →
  readLogs trim parseJSON sortLogs (default "timestamp" sort) (default "desc" order) logData
  = Some allLogs →
  ∃ p, apiLogs trim parseJSON sortLogs (Some (Some pageNum)) (Some (Some limitNum))
               sort order (LogFileData logData) = LogsOk p
       ∧ currentPage p = pageNum
       ∧ totalLogs p = Z.of_nat (length allLogs)
       ∧ totalLogs p ≤ totalPages p * limitNum
       ∧ 0 ≤ totalPages p
       ∧ (0 < totalPages p → (totalPages p - 1) * limitNum < totalLogs p)
       ∧ Z.of_nat (length (logs p))
         = Z.max 0 (Z.min limitNum (totalLogs p - (pageNum - 1) * limitNum)).
Proof.
  intros Hp Hl Hall. unfold apiLogs. simpl.
  rewrite !bool_decide_eq_false_2 by lia. simpl. rewrite Hall.
  eexists. split; [reflexivity|]. simpl.
  pose proof (ceilDiv_spec (Z.of_nat (length allLogs)) limitNum ltac:(lia) ltac:(lia)) as Hc.
  split; [done|]. split; [done|].
  split. { destruct Hc; lia. }
  split. { destruct Hc; nia. }
  split. { destruct Hc; lia. }
  unfold slice. rewrite length_take, length_drop. nia.
Qed.

End LogsFacts.

Lemma pageWindow_bounds active total :
  1 < total → 1 ≤ active ≤ total →
  1 ≤ (pageWindow active total).1 ≤ active
  ∧ active ≤ (pageWindow active total).2 ≤ total
  ∧ (pageWindow active total).2 - (pageWindow active total).1 + 1 = Z.min maxPagesToShow total.
Proof.
  intros Ht Ha. unfold pageWindow, maxPagesToShow.
  change (5 / 2) with 2. simpl. case_bool_decide; simpl; lia.
Qed.

Lemma StronglySorted_seqZ m n : StronglySorted Z.lt (seqZ m n).
Proof.
  destruct (decide (n ≤ 0)) as [Hn|Hn]; [rewrite seqZ_nil by done; constructor|].
  rewrite <- (Z2Nat.id n) by lia. generalize (Z.to_nat n). clear.
  intros k. induction k as [|k IH]; [constructor|].
  rewrite seqZ_S. apply StronglySorted_app_2.
  - intros x1 x2 H1 H2. apply elem_of_seqZ in H1. apply list_elem_of_singleton in H2. lia.
  - done.
  - repeat constructor.
Qed.

Lemma pageNumbers_app l1 l2 : pageNumbers (l1 ++ l2) = pageNumbers l1 ++ pageNumbers l2.
Proof. apply omap_app. Qed.

Lemma activePages_app l1 l2 : activePages (l1 ++ l2) = activePages l1 ++ activePages l2.
Proof. apply omap_app. Qed.

Lemma pageNumbers_numbered active l :
  pageNumbers ((λ i, Button (PageNumber i) false (bool_decide (i = active))) <$> l) = l.
Proof. induction l as [|x l IH]; [done|]. cbn. f_equal. exact IH. Qed.

Lemma activePages_numbered active l :
  activePages ((λ i, Button (PageNumber i) false (bool_decide (i = active))) <$> l)
  = filter (λ i, i = active) l.
Proof.
  induction l as [|x l IH]; [done|]. rewrite fmap_cons, filter_cons.
  destruct (decide (x = active)) as [->|Hne]; rewrite <- IH; unfold activePages; cbn.
  - by rewrite bool_decide_eq_true_2.
  - by rewrite bool_decide_eq_false_2.
Qed.

Lemma pageNumbers_render active total :
  1 < total →
  pageNumbers (renderPagination active total)
  = (if bool_decide ((pageWindow active total).1 > 1) then [1] else [])
    ++ seqZ (pageWindow active total).1
            ((pageWindow active total).2 - (pageWindow active total).1 + 1)
    ++ (if bool_decide ((pageWindow active total).2 < total) then [total] else []).
Proof.
  intros Ht. unfold renderPagination. rewrite bool_decide_eq_false_2 by lia.
  destruct (pageWindow active total) as [s e]. cbn [fst snd].
  rewrite !pageNumbers_app, pageNumbers_numbered.
  change (pageNumbers [Button PrevPage _ false]) with (@nil Z).
  change (pageNumbers [Button NextPage _ false]) with (@nil Z).
  rewrite app_nil_l, app_nil_r. f_equal; [|f_equal].
  - destruct (bool_decide (s > 1)); [|done]. by destruct (bool_decide (s > 2)).
  - destruct (bool_decide (e < total)); [|done]. by destruct (bool_decide (e < total - 1)).
Qed.

Lemma activePages_render active total :
  1 < total →
  activePages (renderPagination active total)
  = filter (λ i, i = active)
           (seqZ (pageWindow active total).1
                 ((pageWindow active total).2 - (pageWindow active total).1 + 1)).
Proof.
  intros Ht. unfold renderPagination. rewrite bool_decide_eq_false_2 by lia.
  destruct (pageWindow active total) as [s e]. cbn [fst snd].
  rewrite !activePages_app, activePages_numbered.
  change (activePages [Button PrevPage _ false]) with (@nil Z).
  change (activePages [Button NextPage _ false]) with (@nil Z).
  rewrite app_nil_l, app_nil_r.
  replace (activePages (if bool_decide (s > 1)
                        then Button (PageNumber 1) false false
                             :: (if bool_decide (s > 2) then [EllipsisSpan] else [])
                        else [])) with (@nil Z).
  2: { destruct (bool_decide (s > 1)); [|done]. by destruct (bool_decide (s > 2)). }
  replace (activePages (if bool_decide (e < total)
                        then (if bool_decide (e < total - 1) then [EllipsisSpan] else [])
                             ++ [Button (PageNumber total) false false]
                        else [])) with (@nil Z).
  2: { destruct (bool_decide (e < total)); [|done]. by destruct (bool_decide (e < total - 1)). }
  by rewrite app_nil_r.
Qed.

Lemma filter_eq_seqZ a s n :
  s ≤ a < s + n → filter (λ i, i = a) (seqZ s n) = [a].
Proof.
  intros Ha.
  replace n with ((a - s) + (1 + (s + n - a - 1))) by lia.
  rewrite seqZ_app by lia. rewrite seqZ_app by lia. rewrite !filter_app.
  replace (s + (a - s)) with a by lia.
  rewrite (seqZ_cons a 1) by lia. rewrite (seqZ_nil _ (Z.pred 1)) by lia.
  rewrite filter_cons, decide_True by done. rewrite filter_nil.
  assert (∀ m k, (∀ x, x ∈ seqZ m k → x ≠ a) → filter (λ i, i = a) (seqZ m k) = []) as Hnil.
  { intros m k H. induction (seqZ m k) as [|x l IH]; [done|].
    rewrite filter_cons, decide_False; [apply IH|apply H; by left].
    intros y Hy. apply H. by right. }
  rewrite !Hnil; [done| |].
  - intros x Hx. apply elem_of_seqZ in Hx. lia.
  - intros x Hx. apply elem_of_seqZ in Hx. lia.
Qed.

(** X16. The numbered buttons of the pagination row, for an active page
    within 1 .. total and more than one page: their page numbers increase
    strictly from left to right and lie within 1 .. total; the first page,
    the last page and the active page are among them; and the active page is
    the one button marked active. *)
Theorem pagination_buttons active total :
  1 < total → 1 ≤ active ≤ total →
  StronglySorted Z.lt (pageNumbers (renderPagination active total))
  ∧ Forall (λ n, 1 ≤ n ≤ total) (pageNumbers (renderPagination active total))
  ∧ 1 ∈ pageNumbers (renderPagination active total)
  ∧ total ∈ pageNumbers (renderPagination active total)
  ∧ active ∈ pageNumbers (renderPagination active total)
  ∧ activePages (renderPagination active total) = [active].
Proof.
  intros Ht Ha. rewrite pageNumbers_render by done.
  pose proof (pageWindow_bounds active total Ht Ha) as (Hs & He & Hn).
  unfold maxPagesToShow in Hn.
  rewrite activePages_render by done.
  set (s := (pageWindow active total).1) in *. set (e := (pageWindow active total).2) in *.
  assert (∀ x, x ∈ seqZ s (e - s + 1) ↔ s ≤ x ≤ e) as Hseq.
  { intros x. rewrite elem_of_seqZ. lia. }
  assert (∀ x, x ∈ (if bool_decide (s > 1) then [1] else []) ↔ x = 1 ∧ s > 1) as Hfirst.
  { intros x. destruct (bool_decide (s > 1)) eqn:E.
    - apply bool_decide_eq_true in E. split.
      + by intros ->%list_elem_of_singleton.
      + intros [-> _]. by apply list_elem_of_singleton.
    - apply bool_decide_eq_false in E. split.
      + by intros ?%not_elem_of_nil.
      + by intros [_ ?]. }
  assert (∀ x, x ∈ (if bool_decide (e < total) then [total] else []) ↔ x = total ∧ e < total)
    as Hlast.
  { intros x. destruct (bool_decide (e < total)) eqn:E.
    - apply bool_decide_eq_true in E. split.
      + by intros ->%list_elem_of_singleton.
      + intros [-> _]. by apply list_elem_of_singleton.
    - apply bool_decide_eq_false in E. split.
      + by intros ?%not_elem_of_nil.
      + by intros [_ ?]. }
  split; [|split; [|split; [|split; [|split]]]].
  - apply StronglySorted_app_2; [| |apply StronglySorted_app_2].
    + intros x1 x2 [-> ?]%Hfirst [?%Hseq|[-> ?]%Hlast]%elem_of_app; lia.
    + destruct (bool_decide (s > 1)); repeat constructor.
    + intros x1 x2 ?%Hseq [-> ?]%Hlast. lia.
    + apply StronglySorted_seqZ.
    + destruct (bool_decide (e < total)); repeat constructor.
  - apply Forall_forall. intros x [[-> ?]%Hfirst|[?%Hseq|[-> ?]%Hlast]%elem_of_app]%elem_of_app; lia.
  - rewrite !elem_of_app, Hfirst, Hseq. lia.
  - rewrite !elem_of_app, Hlast, Hseq. lia.
  - rewrite !elem_of_app, Hseq. lia.
  - apply filter_eq_seqZ. lia.
Qed.

(** X17. A click on any button of the row that carries a listener, while
    the globals [currentPage] and [totalPages] are those the row was rendered
    for (an active page within 1 .. total), leads to a page within
    1 .. total that is not the page shown. *)
Theorem pagination_click_in_range active total pageNumValue isDisabled isActive :
  1 ≤ active ≤ total →
  Button pageNumValue isDisabled isActive ∈ renderPagination active total →
  clickable (Button pageNumValue isDisabled isActive) = true →
  1 ≤ clickPage pageNumValue active total ≤ total
  ∧ clickPage pageNumValue active total ≠ active.
Proof.
  intros Ha Hin Hclick. unfold renderPagination in Hin.
  case_bool_decide as Ht; [by apply not_elem_of_nil in Hin|].
  apply Z.nle_gt in Ht.
  pose proof (pageWindow_bounds active total Ht Ha) as (Hs & He & Hn).
  destruct (pageWindow active total) as [s e]. cbn [fst snd] in *.
  simpl in Hclick. apply andb_true_iff in Hclick as [Hd Hact].
  apply negb_true_iff in Hd, Hact. subst isDisabled isActive.
  rewrite !elem_of_app in Hin. destruct Hin as [Hin|[Hin|[Hin|[Hin|Hin]]]].
  - apply list_elem_of_singleton in Hin. injection Hin as -> Hd.
    symmetry in Hd. apply bool_decide_eq_false in Hd. simpl.
    rewrite bool_decide_eq_true_2 by lia. lia.
  - case_bool_decide; [|by apply not_elem_of_nil in Hin].
    apply elem_of_cons in Hin as [Hin|Hin].
    + injection Hin as ->. simpl. lia.
    + case_bool_decide; [|by apply not_elem_of_nil in Hin].
      by apply list_elem_of_singleton in Hin.
  - apply list_elem_of_fmap in Hin as (i & Hi & Hseq). injection Hi as -> Hact.
    symmetry in Hact. apply bool_decide_eq_false in Hact.
    apply elem_of_seqZ in Hseq. simpl. lia.
  - case_bool_decide; [|by apply not_elem_of_nil in Hin].
    apply elem_of_app in Hin as [Hin|Hin].
    + case_bool_decide; [|by apply not_elem_of_nil in Hin].
      by apply list_elem_of_singleton in Hin.
    + apply list_elem_of_singleton in Hin. injection Hin as ->. simpl. lia.
  - apply list_elem_of_singleton in Hin. injection Hin as -> Hd.
    symmetry in Hd. apply bool_decide_eq_false in Hd. simpl.
    rewrite bool_decide_eq_true_2 by lia. lia.
Qed.

Lemma indexOf_ge c s : -1 ≤ indexOf c s.
Proof.
  induction s as [|a r IH]; simpl; [lia|].
  case_bool_decide; [lia|]. case_bool_decide; lia.
Qed.

Lemma indexOf_first c a b :
  indexOf c a = -1 → indexOf c (a +:+ String c b) = Z.of_nat (String.length a).
Proof.
  induction a as [|x a IH]; intros H.
  - simpl. by rewrite bool_decide_eq_true_2.
  - change (String x a +:+ String c b) with (String x (a +:+ String c b)).
    simpl in *. case_bool_decide; [lia|].
    destruct (bool_decide (indexOf c a < 0)) eqn:E.
    + apply bool_decide_eq_true in E. pose proof (indexOf_ge c a).
      rewrite IH by lia. rewrite bool_decide_eq_false_2 by lia. lia.
    + apply bool_decide_eq_false in E. pose proof (indexOf_ge c a). lia.
Qed.

Lemma indexOf_none_app c a b :
  indexOf c a = -1 → indexOf c b = -1 → indexOf c (a +:+ b) = -1.
Proof.
  induction a as [|x a IH]; intros Ha Hb; [done|].
  change (String x a +:+ b) with (String x (a +:+ b)).
  simpl in *. case_bool_decide; [lia|].
  pose proof (indexOf_ge c a).
  destruct (bool_decide (indexOf c a < 0)) eqn:E.
  - apply bool_decide_eq_true in E. rewrite IH by lia. by rewrite bool_decide_eq_true_2.
  - apply bool_decide_eq_false in E. lia.
Qed.

Lemma substringFrom_past_separator a c b :
  substringFrom (S (String.length a)) (a +:+ String c b) = b.
Proof. induction a; done. Qed.

Lemma originalFilename_after_dash a b :
  indexOf "-"%char a = -1 → originalFilename (a +:+ "-" +:+ b) = b.
Proof.
  intros Ha. unfold originalFilename.
  change (a +:+ "-" +:+ b) with (a +:+ String "-" b).
  rewrite indexOf_first by done.
  replace (Z.to_nat (Z.of_nat (String.length a) + 1)) with (S (String.length a)) by lia.
  apply substringFrom_past_separator.
Qed.

Lemma string_app_assoc (a b c : string) : (a +:+ b) +:+ c = a +:+ (b +:+ c).
Proof.
  induction a as [|x a IH]; [done|].
  change (String x ((a +:+ b) +:+ c) = String x (a +:+ (b +:+ c))). by rewrite IH.
Qed.

Lemma truthy_app_cons a c b : truthy (a +:+ String c b) = true.
Proof. by destruct a. Qed.

(** X18. The receiver shows what follows the first dash of the image
    identifier, or the identifier when nothing follows.  For the identifier
    that the upload route makes of a uuid and a file name, this is the file
    name (the identifier, for an empty name) when the uuid has no dash; when
    the uuid has one, it is the rest of the uuid, a dash and the file
    name. *)
Theorem shown_filename_of_upload basename sessionId now nowExp uuidHead uuidTail
  filename content :
  indexOf "-"%char uuidHead = -1 →
  (∀ imageId,
     generatedImageId basename
       (UploadImage sessionId now nowExp uuidHead (FilePart filename content)) = Some imageId →
     shownFilename imageId
     = if truthy (uploadedName basename filename)
       then uploadedName basename filename else imageId)
  ∧ (∀ imageId,
       generatedImageId basename
         (UploadImage sessionId now nowExp (uuidHead +:+ "-" +:+ uuidTail)
                      (FilePart filename content)) = Some imageId →
       shownFilename imageId = uuidTail +:+ "-" +:+ uploadedName basename filename).
Proof.
  intros Hhead. split; intros imageId [= <-]; unfold shownFilename;
    fold (uploadedName basename filename).
  - by rewrite originalFilename_after_dash by done.
  - rewrite (string_app_assoc uuidHead _ _).
    change (("-" +:+ uuidTail) +:+ "-" +:+ uploadedName basename filename)
      with ("-" +:+ (uuidTail +:+ "-" +:+ uploadedName basename filename)).
    rewrite originalFilename_after_dash by done.
    change (uuidTail +:+ "-" +:+ uploadedName basename filename)
      with (uuidTail +:+ String "-" (uploadedName basename filename)).
    by rewrite truthy_app_cons.
Qed.

(** ** Scenarios

    Executions of the server in its default configuration (session timeout
    120000 ms, client timeout 3000 ms), from start-up. *)

Section Scenarios.

Local Abbreviation run :=
  (exec 120000 3000 ".data/uploads" plainName joinWithSlash unknownType).
Local Abbreviation next :=
  (step 120000 3000 ".data/uploads" plainName joinWithSlash unknownType).
Local Abbreviation connect := (connectSender 120000).
Local Abbreviation poll := (pollStatus 3000).
Local Abbreviation upload :=
  (uploadImage 120000 ".data/uploads" plainName joinWithSlash).
Local Abbreviation fetch := (fetchImage unknownType).
Local Abbreviation uploadBegins := (uploadBegin 120000).
Local Abbreviation uploadWrites := (uploadWrite ".data/uploads" plainName joinWithSlash).
Local Abbreviation uploadFinishes := (uploadFinish ".data/uploads" plainName joinWithSlash).

Local Abbreviation created :=
  (Serve (RequestPairing "s" 0 0 "https://host/sender?SessionId=s" (Some "qr"))).
Local Abbreviation joined := (Serve (ConnectSender "s" 1000 1000)).
Local Abbreviation sentCat :=
  (Serve (UploadImage (Some "s") 2000 2000 "u1" (FilePart (Some "cat.jpg") [Byte.x58]))).
Local Abbreviation sentDog :=
  (Serve (UploadImage (Some "s") 2200 2200 "u2" (FilePart (Some "dog.jpg") [Byte.x59]))).
Local Abbreviation senderPolls t := (Serve (PollStatus "s" (Some "sender") t 0)).
Local Abbreviation receiverPolls t := (Serve (PollStatus "s" (Some "receiver") t 0)).

(** C1, counterexample.  The cat picture is fetched twice in a row, the
    cleanup of the first fetch not having taken its turn: both fetches return
    the bytes. *)
Lemma fetch_twice_before_cleanup :
  (fetch "s" "u1-cat.jpg" (run [created; joined; sentCat] initial).2).1
  = ImageBytes "application/octet-stream" [Byte.x58]
  ∧ (fetch "s" "u1-cat.jpg"
       (fetch "s" "u1-cat.jpg" (run [created; joined; sentCat] initial).2).2).1
    = ImageBytes "application/octet-stream" [Byte.x58]
  ∧ (run [Serve (FetchImage "s" "u1-cat.jpg"); receiverPolls 2100;
          Serve (FetchImage "s" "u1-cat.jpg")]
         (run [created; joined; sentCat] initial).2).1.*2
    = [Some (ImageBytes "application/octet-stream" [Byte.x58]);
       Some (StatusReport (mkStatusPayload connected true 119900 ["u1-cat.jpg"] 0));
       Some (ImageBytes "application/octet-stream" [Byte.x58])].
Proof. vm_compute. repeat split. Qed.

(** C1, witness.  Scenario B of the specification, with a poll of the
    receiver before the cleanup takes its turn: the image is fetched, the
    cleanup runs, and a later fetch finds nothing. *)
Lemma fetch_at_most_once_scenario :
  (fetch "s" "u1-cat.jpg" (run [created; joined; sentCat] initial).2).1
  = ImageBytes "application/octet-stream" [Byte.x58]
  ∧ httpCode
      (fetch "s" "u1-cat.jpg"
         (run [sentDog]
              (runDeferred 0
                 (run [receiverPolls 2100]
                      (fetch "s" "u1-cat.jpg"
                             (run [created; joined; sentCat] initial).2).2).2)).2).1
    = 404.
Proof.
  split; [vm_compute; reflexivity|].
  destruct (fetch_at_most_once 120000 3000 ".data/uploads" plainName joinWithSlash
              unknownType "s" "u1-cat.jpg" (run [created; joined; sentCat] initial).2
              "application/octet-stream" [Byte.x58] [receiverPolls 2100] 0%nat [sentDog])
    as (imagePath & Hqueued & _ & H).
  - vm_compute; reflexivity.
  - each_event ltac:(first [exact I | vm_compute; discriminate]).
  - each_event ltac:(first [exact I | vm_compute; discriminate]).
  - assert (imagePath = ".data/uploads/u1-cat.jpg") as ->.
    { vm_compute in Hqueued. by injection Hqueued. }
    destruct H as (_ & _ & H); [vm_compute; reflexivity|].
    destruct H as [_ H]; [vm_compute; by eexists|].
    exact H.
Defined.

(** C2, counterexample.  The session created at time 0 has its deadline at
    120000 and is not swept.  A connect at 200000 is accepted and renews the
    session, where an absent session gives 404; likewise an upload at 121500,
    after the deadline 121000 set by the connect, is accepted. *)
Lemma connect_after_deadline_accepted :
  expiresAt <$> sessions (run [created] initial).2 !! "s" = Some 120000
  ∧ (connect "s" 200000 200000 (run [created] initial).2).1
    = SenderConnected "s" 120000 2000
  ∧ status <$> sessions (connect "s" 200000 200000 (run [created] initial).2).2 !! "s"
    = Some connected
  ∧ expiresAt <$> sessions (connect "s" 200000 200000 (run [created] initial).2).2 !! "s"
    = Some 320000
  ∧ (connect "s" 200000 200000 initial).1 = Failure 404 "Invalid or expired session ID."
  ∧ expiresAt <$> sessions (run [created; joined; receiverPolls 2000] initial).2 !! "s"
    = Some 121000
  ∧ (upload (Some "s") 121500 121500 "u1" (FilePart (Some "cat.jpg") [Byte.x58])
            (run [created; joined; receiverPolls 2000] initial).2).1
    = UploadAccepted "File cat.jpg uploaded successfully.".
Proof. vm_compute. repeat split. Qed.

(** C2, witness.  The poll is the one route that honours the deadline. *)
Lemma deadline_checked_by_poll_only_scenario :
  (poll "s" (Some "receiver") 200000 0 (run [created] initial).2).1
  = Failure 404 "Session expired."
  ∧ sessions (poll "s" (Some "receiver") 200000 0 (run [created] initial).2).2 !! "s" = None.
Proof.
  destruct (deadline_checked_by_poll_only 120000 3000 ".data/uploads" plainName
              joinWithSlash unknownType "s" (run [created] initial).2
              (mkSession waiting_for_sender 0 0 120000 ∅ []
                         "https://host/sender?SessionId=s" "qr" 0))
    as (Hpoll & _).
  - vm_compute; reflexivity.
  - apply (Hpoll (Some "receiver") 200000 0); [simpl; lia | by left].
Defined.

(** C3, counterexample.  The receiver polls at time 1000 the session created
    at time 0: the poll succeeds and the deadline stays at 120000, which is
    before 1000 + 120000. *)
Lemma poll_does_not_extend_deadline :
  httpCode (poll "s" (Some "receiver") 1000 0 (run [created] initial).2).1 = 200
  ∧ expiresAt <$> sessions (poll "s" (Some "receiver") 1000 0 (run [created] initial).2).2
                    !! "s"
    = Some 120000
  ∧ 120000 < 1000 + 120000.
Proof. vm_compute. repeat split. Qed.

(** C3, witness.  A connect renews the deadline; a poll does not. *)
Lemma deadline_extension_scenario :
  expiresAt <$> sessions (connect "s" 1000 1001 (run [created] initial).2).2 !! "s"
  = Some (1001 + 120000)
  ∧ expiresAt <$> sessions (poll "s" (Some "sender") 1000 0 (run [created] initial).2).2
                    !! "s"
    = Some 120000.
Proof.
  destruct (deadline_extended_by_connect_and_upload 120000 3000 ".data/uploads" plainName
              joinWithSlash "s" 1000 1001 (run [created] initial).2 ltac:(lia))
    as (_ & Hstored).
  destruct (Hstored (mkSession waiting_for_sender 0 0 120000 ∅ []
                               "https://host/sender?SessionId=s" "qr" 0))
    as (Hconnect & _ & Hpoll); [vm_compute; reflexivity|].
  split.
  - destruct Hconnect as (session' & Hstate & Hdeadline & _); [vm_compute; reflexivity|].
    rewrite Hstate. exact (f_equal Some Hdeadline).
  - destruct (Hpoll (Some "sender") 0) as (session' & Hstate & Hdeadline);
      [vm_compute; reflexivity|].
    rewrite Hstate. exact (f_equal Some Hdeadline).
Defined.

(** C4, counterexample.  The sender polls at 200000 the session whose deadline
    is 122000 and which holds one undelivered image: the record is removed at
    once, while the file of the image is still in the upload directory, its
    unlink being deferred.  The same holds when the sweeper runs instead. *)
Lemma record_removed_before_files :
  is_Some (sessions (run [created; joined; sentCat] initial).2 !! "s")
  ∧ sessions (run [created; joined; sentCat; senderPolls 200000] initial).2 !! "s" = None
  ∧ disk (run [created; joined; sentCat; senderPolls 200000] initial).2
      !! ".data/uploads/u1-cat.jpg" = Some [Byte.x58]
  ∧ deferred (run [created; joined; sentCat; senderPolls 200000] initial).2
    = [CleanupFiles "s" [".data/uploads/u1-cat.jpg"]]
  ∧ sessions (run [created; joined; sentCat; Sweep 200000] initial).2 !! "s" = None
  ∧ disk (run [created; joined; sentCat; Sweep 200000] initial).2
      !! ".data/uploads/u1-cat.jpg" = Some [Byte.x58].
Proof. vm_compute. repeat split. by eexists. Qed.

(** C4, witness.  The record goes first, with the upload directory untouched;
    the deferred loop then removes the file. *)
Lemma destroy_record_then_files_scenario :
  disk (next (senderPolls 200000) (run [created; joined; sentCat] initial).2).2
  = disk (run [created; joined; sentCat] initial).2
  ∧ disk (run [Resume 0] (run [created; joined; sentCat; senderPolls 200000] initial).2).2
      !! ".data/uploads/u1-cat.jpg" = None.
Proof.
  edestruct (destroy_record_then_files 120000 3000 ".data/uploads" plainName joinWithSlash
               unknownType (senderPolls 200000) (run [created; joined; sentCat] initial).2 "s")
    as (Hdisk & _ & Hfiles).
  - vm_compute; reflexivity.
  - vm_compute; reflexivity.
  - split; [exact Hdisk|].
    pose proof (Hfiles (run [created; joined; sentCat; senderPolls 200000] initial).2 0%nat
                       "u1-cat.jpg" ".data/uploads/u1-cat.jpg") as H.
    specialize (H ltac:(vm_compute; reflexivity) ltac:(vm_compute; reflexivity)).
    vm_compute in H. vm_compute. exact H.
Defined.

(** C5, counterexample.  The receiver is last seen at time 0.  The sender
    poll at 5000 finds it stale (client timeout 3000) and marks the session
    [receiver_disconnected]; the upload at 6000 is refused, and the session
    is still in the store.  Without that poll, the upload at 10000, ten
    seconds after the receiver was last seen, is accepted. *)
Lemma upload_after_receiver_marked_stale :
  status <$> sessions (run [created; joined; senderPolls 5000] initial).2 !! "s"
  = Some receiver_disconnected
  ∧ receiverLastSeen <$> sessions (run [created; joined; senderPolls 5000] initial).2 !! "s"
    = Some 0
  ∧ (upload (Some "s") 6000 6000 "u1" (FilePart (Some "cat.jpg") [Byte.x58])
            (run [created; joined; senderPolls 5000] initial).2).1
    = Failure 400 "Session is not active or receiver is disconnected."
  ∧ is_Some (sessions
               (upload (Some "s") 6000 6000 "u1" (FilePart (Some "cat.jpg") [Byte.x58])
                       (run [created; joined; senderPolls 5000] initial).2).2 !! "s")
  ∧ (upload (Some "s") 10000 10000 "u1" (FilePart (Some "cat.jpg") [Byte.x58])
            (run [created; joined] initial).2).1
    = UploadAccepted "File cat.jpg uploaded successfully.".
Proof. vm_compute. repeat split. by eexists. Qed.

(** C5, witness.  The upload at 130000 finds the session [connected] and the
    receiver silent for more than the session timeout: it is refused and the
    session is removed. *)
Lemma upload_stale_receiver_scenario :
  (upload (Some "s") 130000 130000 "u1" (FilePart (Some "cat.jpg") [Byte.x58])
          (run [created; joined] initial).2).1
  = Failure 400 "Receiver partner disconnected."
  ∧ sessions (upload (Some "s") 130000 130000 "u1" (FilePart (Some "cat.jpg") [Byte.x58])
                     (run [created; joined] initial).2).2 !! "s" = None.
Proof.
  edestruct (upload_stale_receiver 120000 ".data/uploads" plainName joinWithSlash
               "s" 130000 130000 "u1" (FilePart (Some "cat.jpg") [Byte.x58])
               (run [created; joined] initial).2) as [Hstale _].
  - discriminate.
  - vm_compute; reflexivity.
  - destruct Hstale as [Hreply Hgone]; [reflexivity|reflexivity|].
    split; [|exact Hgone]. by rewrite Hreply.
Defined.

(** C6, counterexample.  The sender poll at 5000 marks the session
    [receiver_disconnected]: the stale side is the receiver, which sends
    nothing afterwards.  The sender connects again at 6000 and the session is
    [connected]. *)
Lemma sender_alone_restores_connected :
  status <$> sessions (run [created; joined; senderPolls 5000] initial).2 !! "s"
  = Some receiver_disconnected
  ∧ (connect "s" 6000 6000 (run [created; joined; senderPolls 5000] initial).2).1
    = SenderConnected "s" 120000 2000
  ∧ status <$> sessions (connect "s" 6000 6000
                           (run [created; joined; senderPolls 5000] initial).2).2 !! "s"
    = Some connected.
Proof. vm_compute. repeat split. Qed.

(** C6, witness.  Polls of both roles, an upload and a sweep leave the
    session disconnected. *)
Lemma disconnected_until_connect_scenario :
  status <$> sessions (run [senderPolls 6000; receiverPolls 6500; sentCat; Sweep 7000]
                           (run [created; joined; senderPolls 5000] initial).2).2 !! "s"
  = Some receiver_disconnected
  ∧ status <$> sessions (run [senderPolls 6000; receiverPolls 6500; sentCat; Sweep 7000]
                             (run [created; joined; senderPolls 5000] initial).2).2 !! "s"
    ≠ Some connected.
Proof.
  split; [vm_compute; reflexivity|].
  edestruct (disconnected_until_connect 120000 3000 ".data/uploads" plainName joinWithSlash
               unknownType [senderPolls 6000; receiverPolls 6500; sentCat; Sweep 7000]
               (run [created; joined; senderPolls 5000] initial).2 "s") as [Hstays _].
  - vm_compute; reflexivity.
  - right. reflexivity.
  - each_event ltac:(intros ? ?; discriminate).
  - destruct (sessions _ !! "s") as [s'|] eqn:E; [|discriminate].
    intros [= Hc]. by apply (Hstays s').
Defined.

(** C7, witness.  Two images are uploaded after a receiver poll; the next
    receiver poll returns their identifiers in upload order. *)
Lemma queue_drain_exact_scenario :
  newImageIds
    <$> reported
          (poll "s" (Some "receiver") 2500 0
                (run [sentCat; senderPolls 2100; sentDog]
                     (poll "s" (Some "receiver") 1500 0 (run [created; joined] initial).2).2).2).1
  = Some ["u1-cat.jpg"; "u2-dog.jpg"].
Proof.
  edestruct (queue_drain_exact 120000 3000 ".data/uploads" plainName joinWithSlash
               unknownType "s" 1500 0 (run [created; joined] initial).2) as [Hids _].
  - vm_compute; reflexivity.
  - instantiate (1 := [sentCat; senderPolls 2100; sentDog]).
    each_event ltac:(first [exact I | intros [_ ?]; discriminate]).
  - instantiate (3 := 2500). instantiate (2 := 0). vm_compute; reflexivity.
  - vm_compute in Hids. vm_compute. exact (f_equal Some Hids).
Defined.

(** C8, witness.  Scenario E of the specification: a second connect while the
    sender is attached is refused and changes nothing. *)
Lemma connect_conflict_scenario :
  connect "s" 2000 2000 (run [created; joined] initial).2
  = (Failure 409 "Session already has an active sender.", (run [created; joined] initial).2).
Proof.
  edestruct (connect_conflict_unchanged 120000 "s" 2000 2000 (run [created; joined] initial).2)
    as [Hsame _].
  - vm_compute; reflexivity.
  - reflexivity.
  - reflexivity.
  - exact Hsame.
Defined.

(** C9, witness.  A connect on the session that a sender poll has marked
    [receiver_disconnected] succeeds, the receiver being silent since 0; the
    deadline moves from 121000 to 6001 + 120000. *)
Lemma connect_succeeds_scenario :
  expiresAt <$> sessions (run [created; joined; senderPolls 5000] initial).2 !! "s"
  = Some 121000
  ∧ connect "s" 6000 6001 (run [created; joined; senderPolls 5000] initial).2
    = (SenderConnected "s" 120000 2000,
       store "s"
             (mkSession connected 0 6000 (6001 + 120000) ∅ []
                        "https://host/sender?SessionId=s" "qr" 0)
             (run [created; joined; senderPolls 5000] initial).2).
Proof.
  split; [vm_compute; reflexivity|].
  apply (connect_succeeds 120000 "s" 6000 6001
           (run [created; joined; senderPolls 5000] initial).2
           (mkSession receiver_disconnected 0 5000 121000 ∅ []
                      "https://host/sender?SessionId=s" "qr" 0)).
  - vm_compute; reflexivity.
  - intros [Hc _]. discriminate Hc.
Defined.

(** C10, witness.  The receiver poll at 7000 finds the session
    [receiver_disconnected] with one pending image, and returns it. *)
Lemma receiver_poll_drains_scenario :
  status <$> sessions (run [created; joined; sentCat; senderPolls 6000] initial).2 !! "s"
  = Some receiver_disconnected
  ∧ ∃ payload session',
      (poll "s" (Some "receiver") 7000 0
            (run [created; joined; sentCat; senderPolls 6000] initial).2).1
      = StatusReport payload
      ∧ newImageIds payload = ["u1-cat.jpg"]
      ∧ sessions (poll "s" (Some "receiver") 7000 0
                       (run [created; joined; sentCat; senderPolls 6000] initial).2).2 !! "s"
        = Some session'
      ∧ pendingImageIds session' = [].
Proof.
  split; [vm_compute; reflexivity|].
  edestruct (receiver_poll_drains 3000 "s" 7000 0
               (run [created; joined; sentCat; senderPolls 6000] initial).2)
    as (payload & session' & Hreply & Hids & Hafter & Hempty).
  - vm_compute; reflexivity.
  - simpl. lia.
  - exists payload, session'. split; [exact Hreply|]. split; [|by split].
    rewrite Hids. reflexivity.
Defined.

(** X1, witness.  No session was ever created under "s": the sender's
    connect and the receiver's poll leave it absent. *)
Lemma absent_session_stays_absent_scenario :
  sessions (run [joined; receiverPolls 1100] initial).2 !! "s" = None.
Proof.
  destruct (absent_session_stays_absent 120000 3000 ".data/uploads" plainName
              joinWithSlash unknownType [joined; receiverPolls 1100] initial "s")
    as [H _].
  - reflexivity.
  - vm_compute; reflexivity.
  - each_event ltac:(split; [intros [] | vm_compute; reflexivity]).
  - exact H.
Defined.


(** X4, witness.  An upload before the sender has connected is refused and
    leaves the session as it was. *)
Lemma rejected_upload_queues_nothing_scenario :
  (upload (Some "s") 500 500 "u1" (FilePart (Some "cat.jpg") [Byte.x58])
          (run [created] initial).2).1
  = Failure 400 "Sender has not connected yet."
  ∧ ∀ sid s',
      sessions (upload (Some "s") 500 500 "u1" (FilePart (Some "cat.jpg") [Byte.x58])
                       (run [created] initial).2).2 !! sid = Some s' →
      ∃ s, sessions (run [created] initial).2 !! sid = Some s
           ∧ imagePaths s' = imagePaths s
           ∧ pendingImageIds s' = pendingImageIds s.
Proof.
  split; [vm_compute; reflexivity|].
  apply (rejected_upload_queues_nothing 120000 ".data/uploads" plainName joinWithSlash).
  intros message. vm_compute. discriminate.
Defined.

(** X5, witness.  The sender polls after the cat picture was uploaded. *)
Lemma sender_poll_keeps_queue_scenario :
  ∃ payload,
    (poll "s" (Some "sender") 2500 0 (run [created; joined; sentCat] initial).2).1
    = StatusReport payload
    ∧ newImageIds payload = [].
Proof.
  eexists. split; [vm_compute; reflexivity|].
  refine (proj1 (sender_poll_keeps_queue 3000 "s" 2500 0
                   (run [created; joined; sentCat] initial).2 _ _)).
  vm_compute; reflexivity.
Defined.

(** X6, witness.  A receiver poll of the session created at time 0. *)
Lemma poll_report_fields_scenario :
  ∃ payload,
    (poll "s" (Some "receiver") 500 7 (run [created] initial).2).1 = StatusReport payload
    ∧ 0 ≤ remainingTimeoutMs payload.
Proof.
  eexists. split; [vm_compute; reflexivity|].
  edestruct (poll_report_fields 3000 "s" (Some "receiver") 500 7 (run [created] initial).2)
    as (s & s' & _ & _ & _ & _ & _ & H & _).
  - vm_compute; reflexivity.
  - exact H.
Defined.


(** X9, witness.  The sweep at 200000 queues the unlink loop of the session
    with the cat picture; one resumption of it removes the file. *)
Lemma cleanup_loop_removes_only_listed_scenario :
  deferred (run [created; joined; sentCat; Sweep 200000] initial).2 !! 0%nat
  = Some (CleanupFiles "s" [".data/uploads/u1-cat.jpg"])
  ∧ disk (run (replicate (length [".data/uploads/u1-cat.jpg"]) (Resume 0))
              (run [created; joined; sentCat; Sweep 200000] initial).2).2
      !! ".data/uploads/u1-cat.jpg" = None.
Proof.
  split; [vm_compute; reflexivity|].
  edestruct (cleanup_loop_removes_only_listed 120000 3000 ".data/uploads" plainName
               joinWithSlash unknownType "s" [".data/uploads/u1-cat.jpg"]
               (run [created; joined; sentCat; Sweep 200000] initial).2 0) as [H _].
  - vm_compute; reflexivity.
  - rewrite H. apply decide_True. apply list_elem_of_here.
Defined.

(** X10, witness.  The session was swept while the cat picture was on its
    way to the receiver: the cleanup after the send and the unlink loop of
    the sweep can run in either order. *)
Lemma post_send_cleanup_commutes_scenario :
  (runTask (PostSendCleanup "s" "u1-cat.jpg" ".data/uploads/u1-cat.jpg")
     (unlinkAll [".data/uploads/u1-cat.jpg"]
        (run [created; joined; sentCat; Sweep 200000] initial).2)).1
  = unlinkAll [".data/uploads/u1-cat.jpg"]
      (runTask (PostSendCleanup "s" "u1-cat.jpg" ".data/uploads/u1-cat.jpg")
         (run [created; joined; sentCat; Sweep 200000] initial).2).1.
Proof.
  apply (post_send_cleanup_commutes "s" "u1-cat.jpg" ".data/uploads/u1-cat.jpg"
           [".data/uploads/u1-cat.jpg"]
           (run [created; joined; sentCat; Sweep 200000] initial).2).
  vm_compute; reflexivity.
Defined.

(** X11, witness.  The session that still waits for its sender. *)
Lemma waiting_session_holds_no_image_scenario :
  pendingImageIds <$> sessions (run [created; receiverPolls 500] initial).2 !! "s" = Some [].
Proof.
  edestruct (waiting_session_holds_no_image 120000 3000 ".data/uploads" plainName
               joinWithSlash unknownType [created; receiverPolls 500] "s") as [_ H].
  - vm_compute; reflexivity.
  - reflexivity.
  - vm_compute in H. vm_compute. exact (f_equal Some H).
Defined.

(** X14, witness.  Three log lines in pages of two. *)
Lemma logs_pages_partition_scenario :
  concat (map (λ k, logsOf (apiLogs plainName Some (λ _ _ l, Some l)
                                    (Some (Some k)) (Some (Some 2)) None None
                                    (LogFileData ("a" +:+ String "010" ("b" +:+ String "010" "c")))))
              (seqZ 1 (ceilDiv (Z.of_nat (length ["a"; "b"; "c"])) 2)))
  = ["a"; "b"; "c"].
Proof.
  apply (logs_pages_partition plainName Some (λ _ _ l, Some l) None None
           ("a" +:+ String "010" ("b" +:+ String "010" "c")) 2 ["a"; "b"; "c"]);
    [lia | vm_compute; reflexivity].
Defined.

(** X15, witness.  The second page of the same log holds the third line. *)
Lemma logs_page_bounds_scenario :
  ∃ p, apiLogs plainName Some (λ _ _ l, Some l) (Some (Some 2)) (Some (Some 2)) None None
               (LogFileData ("a" +:+ String "010" ("b" +:+ String "010" "c"))) = LogsOk p
       ∧ Z.of_nat (length (logs p)) = 1.
Proof.
  destruct (logs_page_bounds plainName Some (λ _ _ l, Some l) 2 2 None None
              ("a" +:+ String "010" ("b" +:+ String "010" "c")) ["a"; "b"; "c"]
              ltac:(lia) ltac:(lia) ltac:(vm_compute; reflexivity))
    as (p & Hp & _ & Ht & _ & _ & _ & Hl).
  exists p. split; [exact Hp|]. rewrite Hl, Ht. vm_compute. reflexivity.
Defined.

(** X16, witness.  Page 7 of 20. *)
Lemma pagination_buttons_scenario :
  StronglySorted Z.lt (pageNumbers (renderPagination 7 20))
  ∧ activePages (renderPagination 7 20) = [7].
Proof.
  destruct (pagination_buttons 7 20 ltac:(lia) ltac:(lia)) as (H1 & _ & _ & _ & _ & H6).
  split; [exact H1 | exact H6].
Defined.

(** X17, witness.  On page 7 of 20, the button of the last page. *)
Lemma pagination_click_in_range_scenario :
  1 ≤ clickPage (PageNumber 20) 7 20 ≤ 20 ∧ clickPage (PageNumber 20) 7 20 ≠ 7.
Proof.
  apply (pagination_click_in_range 7 20 (PageNumber 20) false false); [lia | |].
  - apply list_elem_of_In. vm_compute. repeat first [left; reflexivity | right].
  - reflexivity.
Defined.

(** X18, witness.  A uuid without a dash and one with a dash. *)
Lemma shown_filename_of_upload_scenario :
  shownFilename "abc-cat.jpg" = "cat.jpg"
  ∧ shownFilename "abc-def-cat.jpg" = "def-cat.jpg".
Proof.
  destruct (shown_filename_of_upload plainName (Some "s") 2000 2000 "abc" "def"
              (Some "cat.jpg") [Byte.x58]) as [H1 H2]; [reflexivity|].
  split; [exact (H1 _ eq_refl) | exact (H2 _ eq_refl)].
Defined.

End Scenarios.
